(** * sanic/reloader_helpers.py: the auto-reloader, embedded and verified

    The development follows the source file top to bottom:
    - [PyStr]: the few [str] operations the module uses (slicing, [rfind],
      [rstrip], [split], [int]) and [posixpath.dirname];
    - [Sys]: the filesystem snapshot, the interpreter state ([sys.modules],
      [sys.argv], ...) and the effect monad (a trace of system calls plus a
      return value or a raised exception);
    - [Reloader]: one definition per function of [reloader_helpers.py];
    - [Watchdog]: the control flow of [watchdog] as a step function over its
      program points, with asynchronous signal delivery;
    - [Terms] and the sample systems: the vocabulary of the statements and
      the concrete inputs they are tried on;
    - the lemmas and, for each claim of the specification, its theorem.

    Paths are POSIX paths; a call runs against one snapshot of the
    filesystem and of /proc. *)

From Stdlib Require Import Ascii.
From Equations Require Import Equations.
From stdpp Require Import base numbers option list strings gmap pretty.

Local Open Scope Z_scope.

(** ** Python [str] operations *)

Module PyStr.

(** [len(s)] *)
Definition len (s : string) : nat := String.length s.

(** [s[:n]] for [0 <= n]. *)
Fixpoint take (n : nat) (s : string) : string :=
  match n, s with
  | S k, String c q => String c (take k q)
  | _, _ => ""
  end.

(** [s[n:]] for [0 <= n]. *)
Fixpoint drop (n : nat) (s : string) : string :=
  match n, s with
  | S k, String _ q => drop k q
  | _, _ => s
  end.

(** [s[-n:]] for [0 < n]: the last [n] characters, all of [s] when it is
    shorter. *)
Definition last_n (n : nat) (s : string) : string :=
  drop (len s - n) s.

(** [s[:-1]]: all but the last character. *)
Definition drop_last (s : string) : string :=
  take (len s - 1) s.

(** [s.rfind(c)]: index of the last occurrence of [c], [-1] if none. *)
Fixpoint rfind (c : ascii) (s : string) : Z :=
  match s with
  | "" => -1
  | String a q =>
      let r := rfind c q in
      if 0 <=? r then r + 1
      else if Ascii.eqb a c then 0 else -1
  end.

(** [c * n] *)
Fixpoint repeat (c : ascii) (n : nat) : string :=
  match n with
  | O => ""
  | S k => String c (repeat c k)
  end.

(** [s.rstrip(c)] *)
Fixpoint rstrip (c : ascii) (s : string) : string :=
  match s with
  | "" => ""
  | String a q =>
      match rstrip c q with
      | "" => if Ascii.eqb a c then "" else String a ""
      | r => String a r
      end
  end.

(** [posixpath.dirname]:
<<
    i = p.rfind(sep) + 1
    head = p[:i]
    if head and head != sep*len(head):
        head = head.rstrip(sep)
    return head
>> *)
Definition sep : ascii := "/"%char.

Definition dirname (p : string) : string :=
  let i := rfind sep p + 1 in
  let head := take (Z.to_nat i) p in
  if bool_decide (head ≠ "") && bool_decide (head ≠ repeat sep (len head))
  then rstrip sep head
  else head.

(** Whitespace as [str.isspace] sees it on ASCII: TAB, LF, VT, FF, CR,
    FS, GS, RS, US and SPACE. *)
Definition is_space (c : ascii) : bool :=
  let n := nat_of_ascii c in
  ((9 <=? n) && (n <=? 13) || (28 <=? n) && (n <=? 32))%nat.

(** [s.split()]: the maximal runs of non-whitespace characters.  [cur] is
    the run being read, reversed. *)
Fixpoint split_go (cur : string) (s : string) : list string :=
  match s with
  | "" => match cur with "" => [] | _ => [String.rev cur] end
  | String a q =>
      if is_space a
      then match cur with
           | "" => split_go "" q
           | _ => String.rev cur :: split_go "" q
           end
      else split_go (String a cur) q
  end.

Definition split (s : string) : list string := split_go "" s.

Definition digit (c : ascii) : option Z :=
  let n := nat_of_ascii c in
  if ((48 <=? n) && (n <=? 57))%nat then Some (Z.of_nat n - 48) else None.

(** The digit part of a decimal literal: digits, with single underscores
    allowed between two digits. *)
Fixpoint digits_go (s : string) (acc : Z) (after_digit : bool) : option Z :=
  match s with
  | "" => if after_digit then Some acc else None
  | String c q =>
      match digit c with
      | Some d => digits_go q (10 * acc + d) true
      | None =>
          if Ascii.eqb c "_" && after_digit
          then digits_go q acc false
          else None
      end
  end.

Fixpoint lstrip_space (s : string) : string :=
  match s with
  | String a q => if is_space a then lstrip_space q else s
  | "" => ""
  end.

Definition strip_space (s : string) : string :=
  String.rev (lstrip_space (String.rev (lstrip_space s))).

(** [int(s)] on an ASCII string, base ten: [None] stands for
    [ValueError]. *)
Definition int (s : string) : option Z :=
  match strip_space s with
  | String "-" q => Z.opp <$> digits_go q 0 false
  | String "+" q => digits_go q 0 false
  | q => digits_go q 0 false
  end.

(** [str(n)] for an integer. *)
Definition str (n : Z) : string := pretty n.

(** [dirname] only ever cuts a path short: it returns a prefix, so a result
    of the same length is the path itself.  The ancestor walk of
    [_iter_module_files] terminates on this. *)

Lemma take_len_le n s : (len (take n s) <= len s)%nat.
Proof.
  unfold len. revert s; induction n as [|n IH]; intros [|c q]; simpl; try lia.
  specialize (IH q). lia.
Qed.

Lemma take_len_eq n s : len (take n s) = len s → take n s = s.
Proof.
  unfold len. revert s; induction n as [|n IH]; intros [|c q]; simpl; try done.
  intros H. f_equal. apply IH. lia.
Qed.

Lemma rstrip_len_le c s : (len (rstrip c s) <= len s)%nat.
Proof.
  unfold len. induction s as [|a q IH]; simpl; [lia|].
  destruct (rstrip c q) as [|b r]; [destruct (Ascii.eqb a c)|]; simpl in *; lia.
Qed.

Lemma rstrip_len_eq c s : len (rstrip c s) = len s → rstrip c s = s.
Proof.
  pose proof (rstrip_len_le c) as Hle.
  unfold len in *. induction s as [|a q IH]; simpl; [done|].
  specialize (Hle q).
  destruct (rstrip c q) as [|b r] eqn:E.
  - destruct (Ascii.eqb a c); simpl in *; intros H; [lia|].
    f_equal. apply IH. lia.
  - simpl in *. intros H. f_equal. apply IH. lia.
Qed.

Lemma dirname_len_le p : (len (dirname p) <= len p)%nat.
Proof.
  unfold dirname.
  pose proof (take_len_le (Z.to_nat (rfind sep p + 1)) p) as H1.
  pose proof (rstrip_len_le sep (take (Z.to_nat (rfind sep p + 1)) p)) as H2.
  destruct (_ && _); lia.
Qed.

Lemma dirname_len_eq p : len (dirname p) = len p → dirname p = p.
Proof.
  unfold dirname.
  pose proof (take_len_le (Z.to_nat (rfind sep p + 1)) p) as H1.
  pose proof (rstrip_len_le sep (take (Z.to_nat (rfind sep p + 1)) p)) as H2.
  destruct (_ && _); intros H.
  - rewrite rstrip_len_eq by lia. apply take_len_eq. lia.
  - by apply take_len_eq.
Qed.

Lemma dirname_shorter p : dirname p ≠ p → (len (dirname p) < len p)%nat.
Proof.
  intros Hne. pose proof (dirname_len_le p) as Hle.
  destruct (decide (len (dirname p) = len p)) as [Heq|]; [|lia].
  by apply dirname_len_eq in Heq.
Qed.

End PyStr.

Example dirname_ex1 : PyStr.dirname "/usr/lib/python3/site.py" = "/usr/lib/python3".
Proof. reflexivity. Qed.
Example dirname_ex2 : PyStr.dirname "/" = "/".
Proof. reflexivity. Qed.
Example dirname_ex3 : PyStr.dirname "site.py" = "".
Proof. reflexivity. Qed.
Example dirname_ex4 : PyStr.dirname "///a" = "///".
Proof. reflexivity. Qed.
Example dirname_ex5 : PyStr.dirname "/a//b/" = "/a//b".
Proof. reflexivity. Qed.
Example dirname_ex6 : PyStr.dirname "/a//b" = "/a".
Proof. reflexivity. Qed.
Example split_ex : PyStr.split "  12 7
 301 " = ["12"; "7"; "301"].
Proof. reflexivity. Qed.
Example int_ex : PyStr.int <$> ["12"; "007"; "-3"; "1_0"; "1__0"; "x"; ""; "+5"; "_1"]
  = [Some 12; Some 7; Some (-3); Some 10; None; None; None; Some 5; None].
Proof. reflexivity. Qed.
Example str_ex : PyStr.str 4321 = "4321".
Proof. vm_compute. reflexivity. Qed.

(** ** The system the reloader runs on *)

Module Sys.

(** What a path resolves to.  Only regular files answer [isfile]; every
    resolvable path answers [stat].  [st_mtime] is only ever compared, so
    an integer tick count stands for the timestamp. *)
Record inode := Inode {
  is_regular : bool;
  st_mtime : Z;
  content : string
}.

(** A snapshot of the filesystem: path resolution as a partial function. *)
Definition filesystem := string → option inode.

(** [os.path.isfile(p)] *)
Definition isfile (fs : filesystem) (p : string) : bool :=
  match fs p with
  | Some n => is_regular n
  | None => false
  end.

(** [os.stat(p).st_mtime]; [None] stands for [OSError]. *)
Definition stat_mtime (fs : filesystem) (p : string) : option Z :=
  st_mtime <$> fs p.

(** A value of [sys.modules]: [__file__] may be missing or [None]. *)
Record module := Module { file_attr : option string }.

Inductive platform_t := Darwin | Linux | OtherPlatform (name : string).

Inductive signum := SIGTERM | SIGINT.

Inductive exn :=
| ProcessLookupError
| PermissionError
| FileNotFoundError
| ValueError (literal : string)
| RuntimeError (msg : string)
| KeyboardInterrupt
| OtherError (name : string).

Global Instance exn_eq_dec : EqDecision exn.
Proof. solve_decision. Defined.
Global Instance signum_eq_dec : EqDecision signum.
Proof. solve_decision. Defined.

(** The interpreter and operating-system state one call runs against. *)
Record world := World {
  fs : filesystem;
  (** [os.kill(pid, sig)]: [None] when the signal is delivered, [Some e]
      when the call raises [e]. *)
  os_kill : Z → option exn;
  (** [sys.platform] *)
  platform : platform_t;
  (** [list(sys.modules.values())]; an entry may be [None]. *)
  sys_modules : list (option module);
  (** [sys.executable] *)
  executable : string;
  (** [sys.argv]: the interpreter always provides [argv[0]]. *)
  argv0 : string;
  argv_rest : list string;
  (** [sys.modules["__main__"].__spec__], by its [name]. *)
  main_spec : option string;
  (** [subprocess.run(["pkill", "-P", str(pid)])]: [None] when the helper
      ran, whatever its exit status, [Some e] when the call raises [e]
      ([FileNotFoundError] when there is no [pkill] to start). *)
  run_pkill : Z → option exn
}.

Definition sys_argv (w : world) : list string := argv0 w :: argv_rest w.

(** System calls and process-level actions, in the order they are made.
    [EKill] records the call [os.kill(pid, sig)] and [EPkill] the call
    [subprocess.run(["pkill", "-P", parent])], whatever their outcome. *)
Inductive event :=
| EKill (pid : Z) (sig : signum)
| EPkill (parent : string)
| EPopen (args : list string) (pid : Z)
| ETerminate (pid : Z)
| EExit (status : Z)
| ESleep.

Global Instance event_eq_dec : EqDecision event.
Proof. solve_decision. Defined.

(** How a computation ends: it returns, raises, or ends the whole process
    ([os._exit]). *)
Inductive outcome (A : Type) :=
| Return (a : A)
| Raise (e : exn)
| Exit (status : Z).
Arguments Return {A} a.
Arguments Raise {A} e.
Arguments Exit {A} status.

(** A computation: what it did, and how it ended. *)
Definition M (A : Type) : Type := list event * outcome A.

Definition ret {A} (a : A) : M A := ([], Return a).
Definition raise {A} (e : exn) : M A := ([], Raise e).
Definition emit (ev : event) : M unit := ([ev], Return tt).

Definition bind {A B} (m : M A) (k : A → M B) : M B :=
  match m with
  | (t, Return a) => let '(t', r) := k a in (t ++ t', r)
  | (t, Raise e) => (t, Raise e)
  | (t, Exit c) => (t, Exit c)
  end.

Definition trace {A} (m : M A) : list event := m.1.
Definition result {A} (m : M A) : outcome A := m.2.

(** [for x in l: body(x)] *)
Fixpoint for_each {A} (l : list A) (body : A → M unit) : M unit :=
  match l with
  | [] => ret tt
  | x :: l' => bind (body x) (λ _, for_each l' body)
  end.

(** [try: m  except ProcessLookupError: continue] as the last statement
    of a loop body (or followed by nothing): the handler ends the
    iteration normally. *)
Definition except_ProcessLookupError (m : M unit) : M unit :=
  match m with
  | (t, Raise ProcessLookupError) => (t, Return tt)
  | _ => m
  end.

(** [os._exit(status)] *)
Definition os_exit {A} (status : Z) : M A := ([EExit status], Exit status).

(** [os.kill(pid, sig)] *)
Definition kill (w : world) (pid : Z) (sig : signum) : M unit :=
  bind (emit (EKill pid sig))
       (λ _, match os_kill w pid with
             | None => ret tt
             | Some e => raise e
             end).

(** [int(s)] *)
Definition int (s : string) : M Z :=
  match PyStr.int s with
  | Some n => ret n
  | None => raise (ValueError s)
  end.

(** [open(p).read()] *)
Definition read_text (w : world) (p : string) : M string :=
  match fs w p with
  | Some n => if is_regular n then ret (content n) else raise (OtherError "IsADirectoryError")
  | None => raise FileNotFoundError
  end.

End Sys.

Export Sys.

Declare Scope py_scope.
Delimit Scope py_scope with py.
Notation "x <- m ;; k" := (Sys.bind m (λ x, k))
  (at level 100, m at next level, right associativity) : py_scope.
Notation "m ;; k" := (Sys.bind m (λ _, k))
  (at level 100, right associativity) : py_scope.

Local Open Scope py_scope.

(** ** reloader_helpers.py *)

Module Reloader.

(** Lines 23-29, the [while not os.path.isfile(filename)] loop with its
    [break]: [Some f] when the loop condition turns false at [f] (the
    [else] branch of the [while] runs), [None] when the loop is left by
    [break] because [dirname] returned its argument. *)
Equations? walk (fs : filesystem) (filename : string) : option string
  by wf (PyStr.len filename) lt :=
  walk fs filename with isfile fs filename => {
    | true => Some filename
    | false with decide (PyStr.dirname filename = filename) => {
        | left _ => None
        | right Hne => walk fs (PyStr.dirname filename) } }.
Proof. by apply PyStr.dirname_shorter. Qed.

(** [filename] after [k] rounds of [filename = os.path.dirname(filename)]. *)
Definition ancestor (k : nat) (filename : string) : string :=
  Nat.iter k PyStr.dirname filename.

(** Lines 30-31: a [".pyc"] or [".pyo"] name loses its last character. *)
Definition source_name (filename : string) : string :=
  if bool_decide (PyStr.last_n 4 filename ∈ [".pyc"; ".pyo"])
  then PyStr.drop_last filename
  else filename.

(** Lines 19-32: what one entry of [sys.modules] contributes. *)
Definition module_files (fs : filesystem) (m : option module) : list string :=
  match m with
  | None => []
  | Some m =>
      match file_attr m with
      | None => []
      | Some filename =>
          if bool_decide (filename = "") then []
          else match walk fs filename with
               | Some f => [source_name f]
               | None => []
               end
      end
  end.

(** The paths yielded by the generator, in order. *)
Definition _iter_module_files (w : world) : list string :=
  mbind (module_files (fs w)) (sys_modules w).

(** [repr] of a string without quotes, backslashes or control characters. *)
Definition repr (s : string) : string := "'" +:+ s +:+ "'".

Definition _get_args_for_reloading (w : world) : M (list string) :=
  let mod_spec := main_spec w in
  if bool_decide (argv0 w ∈ [""; "-c"])
  then raise (RuntimeError ("Autoreloader cannot work with argv[0]=" +:+ repr (argv0 w)))
  else match mod_spec with
       | Some name => ret ([executable w; "-m"; name] ++ argv_rest w)
       | None => ret ([executable w] ++ sys_argv w)
       end.

(** The handle [subprocess.Popen] returns. *)
Record Popen := { pid : Z }.

(** [spawn] is what the operating system answers to the [Popen] call: the
    new process id, or the error it raises.  The arguments are evaluated
    first, so nothing is spawned when they raise. *)
Inductive spawn_result := Spawned (pid : Z) | SpawnError (e : exn).

Definition restart_with_reloader (w : world) (spawn : spawn_result) : M Popen :=
  args <- _get_args_for_reloading w ;;
  match spawn with
  | Spawned p => emit (EPopen args p) ;; ret {| pid := p |}
  | SpawnError e => raise e
  end.

Definition children_path (p : string) : string :=
  "/proc/" +:+ p +:+ "/task/" +:+ p +:+ "/children".

(** Lines 82-85 and 86-89. *)
Definition try_kill (w : world) (tok : string) : M unit :=
  except_ProcessLookupError
    (n <- Sys.int tok ;; kill w n SIGTERM).

(** [open(path).read().split()] *)
Definition read_pids (w : world) (path : string) : M (list string) :=
  text <- read_text w path ;; ret (PyStr.split text).

(** Lines 73-89, the body of [for child_pid in children_list_pid]. *)
Definition kill_subtree (w : world) (child_pid : string) : M unit :=
  let children_proc_path := children_path child_pid in
  if negb (isfile (fs w) children_proc_path) then ret tt
  else
    children_list_pid_2 <- read_pids w children_proc_path ;;
    for_each children_list_pid_2 (λ _pid, try_kill w _pid) ;;
    try_kill w child_pid.

Definition kill_process_children_unix (w : world) (pid : Z) : M unit :=
  let root_process_path := children_path (PyStr.str pid) in
  if negb (isfile (fs w) root_process_path) then ret tt
  else
    children_list_pid <- read_pids w root_process_path ;;
    for_each children_list_pid (kill_subtree w).

(** [subprocess.run(["pkill", "-P", str(pid)])]: the exit status of the
    helper is not looked at, an exception of the call is not caught. *)
Definition kill_process_children_osx (w : world) (pid : Z) : M unit :=
  emit (EPkill (PyStr.str pid)) ;;
  match run_pkill w pid with
  | None => ret tt
  | Some e => raise e
  end.

Definition kill_process_children (w : world) (pid : Z) : M unit :=
  match platform w with
  | Darwin => kill_process_children_osx w pid
  | Linux => kill_process_children_unix w pid
  | OtherPlatform _ => ret tt
  end.

(** [proc.terminate()] *)
Definition terminate (proc : Popen) : M unit := emit (ETerminate (pid proc)).

Definition kill_program_completely (w : world) (proc : Popen) : M unit :=
  kill_process_children w (pid proc) ;;
  terminate proc ;;
  os_exit 0.

(** Lines 144-154: the body of [for filename in _iter_module_files()],
    on the pair ([mtimes], [need_reload]). *)
Definition observe (fs : filesystem) (st : gmap string Z * bool)
    (filename : string) : gmap string Z * bool :=
  match stat_mtime fs filename with
  | None => st
  | Some mtime =>
      let old_time := st.1 !! filename in
      match old_time with
      | None => (<[filename := mtime]> st.1, st.2)
      | Some old_time =>
          if bool_decide (old_time < mtime)
          then (<[filename := mtime]> st.1, true)
          else st
      end
  end.

(** Lines 141-154: one pass over the enumerated files. *)
Definition poll (fs : filesystem) (mtimes : gmap string Z)
    (files : list string) : gmap string Z * bool :=
  foldl (observe fs) (mtimes, false) files.

End Reloader.

(** ** The control flow of [watchdog] *)

Module Watchdog.
Import Reloader.

(** Program points of [watchdog], named by the line about to run.  Line 159
    is two points: the call, and the store of its result into
    [worker_process].  [signal.signal] is taken to succeed, as it does in
    the main thread. *)
Inductive pc :=
| AtLaunch
| AtInstallSIGTERM
| AtInstallSIGINT
| AtPoll
| AtCheck (need_reload : bool)
| AtKillChildren
| AtTerminate
| AtRelaunch
| AtAssign (new : Popen)
| AtSleep
| Exited (status : Z)
| Crashed (e : exn)
| Killed (sig : signum).

(** The local variables of [watchdog] and the signal dispositions.  Both
    handlers are [lambda *args: kill_program_completely(worker_process)]:
    the closure holds the variable, not its value, so the disposition is
    only whether the handler is installed. *)
Record state := State {
  at_pc : pc;
  mtimes : gmap string Z;
  worker_process : option Popen;
  on_SIGTERM : bool;
  on_SIGINT : bool
}.

Definition goto (l : pc) (s : state) : state :=
  State l (mtimes s) (worker_process s) (on_SIGTERM s) (on_SIGINT s).

Definition init : state := State AtLaunch ∅ None false false.

Definition live (s : state) : bool :=
  match at_pc s with
  | Exited _ | Crashed _ | Killed _ => false
  | _ => true
  end.

(** Reading the variable [worker_process]. *)
Definition load_worker (s : state) : M Popen :=
  match worker_process s with
  | Some p => ret p
  | None => raise (OtherError "NameError")
  end.

(** Where control goes when a call made at [s] ends. *)
Definition continue_with {A} (s : state) (m : M A) (k : A → state)
  : list event * state :=
  match m with
  | (t, Return a) => (t, k a)
  | (t, Raise e) => (t, goto (Crashed e) s)
  | (t, Exit c) => (t, goto (Exited c) s)
  end.

(** One statement of the main flow, run against the world [w] of that
    moment; [spawn] is the answer to a [Popen] call, if one is made. *)
Definition step (w : world) (spawn : spawn_result) (s : state)
  : option (list event * state) :=
  match at_pc s with
  | AtLaunch =>
      Some (continue_with s (restart_with_reloader w spawn) (λ p,
        State AtInstallSIGTERM (mtimes s) (Some p) (on_SIGTERM s) (on_SIGINT s)))
  | AtInstallSIGTERM =>
      Some ([], State AtInstallSIGINT (mtimes s) (worker_process s) true (on_SIGINT s))
  | AtInstallSIGINT =>
      Some ([], State AtPoll (mtimes s) (worker_process s) (on_SIGTERM s) true)
  | AtPoll =>
      let '(mtimes', need_reload) := poll (fs w) (mtimes s) (_iter_module_files w) in
      Some ([], State (AtCheck need_reload) mtimes' (worker_process s)
                  (on_SIGTERM s) (on_SIGINT s))
  | AtCheck need_reload =>
      Some ([], goto (if need_reload then AtKillChildren else AtSleep) s)
  | AtKillChildren =>
      Some (continue_with s
              (p <- load_worker s ;; kill_process_children w (pid p))
              (λ _, goto AtTerminate s))
  | AtTerminate =>
      Some (continue_with s (p <- load_worker s ;; terminate p)
              (λ _, goto AtRelaunch s))
  | AtRelaunch =>
      Some (continue_with s (restart_with_reloader w spawn)
              (λ p, goto (AtAssign p) s))
  | AtAssign new =>
      Some ([], State AtSleep (mtimes s) (Some new) (on_SIGTERM s) (on_SIGINT s))
  | AtSleep =>
      Some ([ESleep], goto AtPoll s)
  | Exited _ | Crashed _ | Killed _ => None
  end.

Definition installed (sig : signum) (s : state) : bool :=
  match sig with
  | SIGTERM => on_SIGTERM s
  | SIGINT => on_SIGINT s
  end.

(** [OSError] and its built-in subclasses. *)
Definition is_OSError (e : exn) : bool :=
  match e with
  | ProcessLookupError | PermissionError | FileNotFoundError => true
  | OtherError name =>
      bool_decide (name ∈ ["OSError"; "BlockingIOError"; "ChildProcessError";
                           "ConnectionError"; "BrokenPipeError";
                           "ConnectionAbortedError"; "ConnectionRefusedError";
                           "ConnectionResetError"; "FileExistsError";
                           "InterruptedError"; "IsADirectoryError";
                           "NotADirectoryError"; "TimeoutError"])
  | _ => false
  end.

(** Whether the statement running at [l] has a [try] around a call that
    catches [e].  In the pass of lines 143-154, line 145 runs under
    [except OSError] (lines 144-147) and the enumeration calls
    [os.path.isfile] (line 24), which catches [OSError] and [ValueError]
    and answers [False].  Line 157 has such calls on Linux only: the
    [os.path.isfile] of lines 67 and 77 and the [os.kill] of lines 81-88
    under [except ProcessLookupError].  No other statement of [watchdog]
    runs under a [try] of this file. *)
Definition catches (w : world) (l : pc) (e : exn) : bool :=
  match l with
  | AtPoll =>
      is_OSError e || match e with ValueError _ => true | _ => false end
  | AtKillChildren =>
      match platform w with
      | Linux =>
          is_OSError e || match e with ValueError _ => true | _ => false end
      | _ => false
      end
  | _ => false
  end.

(** Delivery of [sig] to the supervisor at [s]: the installed handler runs
    on the value [worker_process] has now; without one the default
    disposition applies ([SIGTERM] ends the process, [SIGINT] raises
    [KeyboardInterrupt]).  An exception the handler raises surfaces in the
    main flow at the call being made: [in_try] tells whether that call is
    one of those under a [try]; if so and the [try] catches the exception,
    the call is cut short and the main flow goes on, otherwise the
    exception leaves [watchdog].  A statement of [watchdog] is one step
    here, so the delivery stands before the statement it interrupts. *)
Definition deliver (w : world) (sig : signum) (in_try : bool) (s : state)
  : option (list event * state) :=
  if negb (live s) then None
  else if installed sig s then
    Some match (p <- load_worker s ;; kill_program_completely w p) with
         | (t, Return _) => (t, s)
         | (t, Raise e) =>
             (t, if in_try && catches w (at_pc s) e then s
                 else goto (Crashed e) s)
         | (t, Exit c) => (t, goto (Exited c) s)
         end
  else
    match sig with
    | SIGTERM => Some ([], goto (Killed SIGTERM) s)
    | SIGINT => Some ([], goto (Crashed KeyboardInterrupt) s)
    end.

(** [runs tr s]: the supervisor can be at [s] having performed [tr], with
    the world changing freely between statements. *)
Inductive runs : list event → state → Prop :=
| runs_init : runs [] init
| runs_step w spawn tr s t s' :
    runs tr s → step w spawn s = Some (t, s') → runs (tr ++ t) s'
| runs_signal w sig in_try tr s t s' :
    runs tr s → deliver w sig in_try s = Some (t, s') → runs (tr ++ t) s'.

(** The main flow run through a script: the world and the [Popen] answer
    met at each statement.  It stops early at a final program point. *)
Fixpoint exec (script : list (world * spawn_result)) (s : state)
  : list event * state :=
  match script with
  | [] => ([], s)
  | (w, spawn) :: script' =>
      match step w spawn s with
      | Some (t, s') => let '(t', s'') := exec script' s' in (t ++ t', s'')
      | None => ([], s)
      end
  end.

(** [watchdog] from its first statement. *)
Definition watchdog (script : list (world * spawn_result))
  : list event * state :=
  exec script init.

(** The child most recently started, by the trace. *)
Fixpoint last_launched (tr : list event) : option Z :=
  match tr with
  | [] => None
  | ev :: tr' =>
      match last_launched tr' with
      | Some p => Some p
      | None => match ev with EPopen _ p => Some p | _ => None end
      end
  end.

(** The loop of lines 140-161, including the points inside a reload. *)
Definition in_loop (l : pc) : bool :=
  match l with
  | AtPoll | AtCheck _ | AtKillChildren | AtTerminate | AtRelaunch
  | AtAssign _ | AtSleep => true
  | _ => false
  end.

End Watchdog.

(** * Vocabulary of the statements *)

Module Import Terms.
Import Reloader Watchdog.

(** [p] is on record and its timestamp on disk is strictly greater. *)
Definition increased (fs : filesystem) (mtimes : gmap string Z) (p : string) : bool :=
  match stat_mtime fs p, mtimes !! p with
  | Some mtime, Some old_time => bool_decide (old_time < mtime)
  | _, _ => false
  end.

(** What the record of [p] is after [p] has been observed. *)
Definition recorded (fs : filesystem) (mtimes : gmap string Z) (p : string) : option Z :=
  match stat_mtime fs p, mtimes !! p with
  | Some mtime, Some old_time => Some (Z.max old_time mtime)
  | Some mtime, None => Some mtime
  | None, old => old
  end.

(** The pid tokens a children-list file holds; none when there is no such
    file. *)
Definition listed (w : world) (path : string) : list string :=
  match fs w path with
  | Some n => if is_regular n then PyStr.split (content n) else []
  | None => []
  end.

Definition direct_children (w : world) (root : Z) : list string :=
  listed w (children_path (PyStr.str root)).

Definition grandchildren (w : world) (child_pid : string) : list string :=
  listed w (children_path child_pid).

Definition has_children_file (w : world) (tok : string) : bool :=
  isfile (fs w) (Reloader.children_path tok).

(** The children whose own list can be read, each with its children. *)
Definition descendants (w : world) (root : Z) : list string :=
  c ← direct_children w root;
  if has_children_file w c then c :: grandchildren w c else [].

(** A token that parses, naming a pid that [os.kill] signals or reports as
    gone. *)
Definition benign (w : world) (tok : string) : Prop :=
  ∃ n, PyStr.int tok = Some n ∧
       (os_kill w n = None ∨ os_kill w n = Some ProcessLookupError).

(** The [os.kill] call made for a token. *)
Definition sigterm (tok : string) : list event :=
  match PyStr.int tok with
  | Some n => [EKill n SIGTERM]
  | None => []
  end.

(** Grandchildren first, then the child. *)
Definition subtree_signals (w : world) (c : string) : list event :=
  if has_children_file w c then (grandchildren w c ≫= sigterm) ++ sigterm c else [].

(** The message of the [RuntimeError] of line 40. *)
Definition fatal_message (w : world) : string :=
  "Autoreloader cannot work with argv[0]=" +:+ Reloader.repr (argv0 w).

(** The event of a [Popen] call. *)
Definition is_popen (ev : event) : bool :=
  match ev with EPopen _ _ => true | _ => false end.

(** What holds of the variables at each program point: after line 133 the
    variable [worker_process] is bound, from line 140 on both handlers are
    installed, and outside the store of line 159 the variable holds the
    child started last. *)
Definition invariant (tr : list event) (s : state) : Prop :=
  match at_pc s with
  | AtLaunch =>
      worker_process s = None ∧ on_SIGTERM s = false ∧ on_SIGINT s = false ∧
      last_launched tr = None
  | AtInstallSIGTERM =>
      (∃ p, worker_process s = Some p ∧ last_launched tr = Some (pid p)) ∧
      on_SIGTERM s = false ∧ on_SIGINT s = false
  | AtInstallSIGINT =>
      (∃ p, worker_process s = Some p ∧ last_launched tr = Some (pid p)) ∧
      on_SIGTERM s = true ∧ on_SIGINT s = false
  | AtAssign new =>
      (∃ p, worker_process s = Some p) ∧ last_launched tr = Some (pid new) ∧
      on_SIGTERM s = true ∧ on_SIGINT s = true
  | Exited _ | Crashed _ | Killed _ => True
  | _ =>
      (∃ p, worker_process s = Some p ∧ last_launched tr = Some (pid p)) ∧
      on_SIGTERM s = true ∧ on_SIGINT s = true
  end.

(** [os.stat(p)] succeeds. *)
Definition statable (fs : filesystem) (p : string) : Prop :=
  is_Some (stat_mtime fs p).

(** The children started and not yet sent [terminate()], newest first:
    [Popen] adds a pid, [terminate] removes it. *)
Definition track (started : list Z) (ev : event) : list Z :=
  match ev with
  | EPopen _ p => p :: started
  | ETerminate p => filter (λ q, q ≠ p) started
  | _ => started
  end.

Definition unterminated (tr : list event) : list Z := foldl track [] tr.

(** Two worlds in which the supervisor was invoked the same way. *)
Definition same_invocation (w w' : world) : Prop :=
  executable w = executable w' ∧ argv0 w = argv0 w' ∧
  argv_rest w = argv_rest w' ∧ main_spec w = main_spec w'.

(** Of the children started, at most the last one is still to be
    terminated. *)
Definition at_most_last (tr : list event) : Prop :=
  (length (unterminated tr) ≤ 1)%nat ∧
  ∀ q, q ∈ unterminated tr → last_launched tr = Some q.

(** What [watchdog] keeps true of the children it started: the only child
    not yet sent [terminate()] is the current one, there is none between
    lines 158 and 159, and after the call of line 159 it is the new one. *)
Definition one_child (tr : list event) (s : state) : Prop :=
  match at_pc s with
  | AtLaunch | AtRelaunch => unterminated tr = []
  | AtAssign new => unterminated tr = [pid new]
  | Exited _ | Crashed _ | Killed _ => at_most_last tr
  | _ => ∃ p, worker_process s = Some p ∧ unterminated tr = [pid p]
  end.

End Terms.

(** * Sample systems *)

(** Nothing on disk. *)
Definition empty_fs : filesystem := λ _, None.

(** One regular file on disk. *)
Definition one_file (path : string) (mtime : Z) (text : string) : filesystem :=
  λ p, if decide (p = path) then Some (Inode true mtime text) else None.

(** An application with one module, [/app/server.py], last written at
    tick [mtime]. *)
Definition app_world (mtime : Z) : world :=
  World (one_file "/app/server.py" mtime "") (λ _, None) Linux
        [None; Some (Module None); Some (Module (Some "/app/server.py"))]
        "/usr/bin/python3" "/app/server.py" ["--port"; "8000"] None (λ _, None).

(** A /proc snapshot as a filesystem: each listed pid has a [children]
    file with the given text. *)
Definition proc_fs (lists : list (string * string)) : filesystem :=
  λ p, match list_find (λ e, Reloader.children_path e.1 = p) lists with
       | Some (_, e) => Some (Inode true 0 e.2)
       | None => None
       end.

Definition proc_world (lists : list (string * string)) (os_kill : Z → option exn)
  : world :=
  World (proc_fs lists) os_kill Linux [] "/usr/bin/python3" "/app/server.py" [] None
        (λ _, None).

(** Root 10 with children 11 and 12; 11 has the child 21, which is gone. *)
Definition tree_world : world :=
  proc_world [("10", "11 12 "); ("11", "21 "); ("12", "")]
             (λ n, if decide (n = 21) then Some ProcessLookupError else None).

(** Root 10 lists the child 11, whose own list is not there. *)
Definition orphan_list_world : world :=
  proc_world [("10", "11 ")] (λ _, None).

(** Root 10 with children 11 and 12; signalling 21, a child of 11, is
    refused. *)
Definition refused_world : world :=
  proc_world [("10", "11 12 "); ("11", "21 22 "); ("12", "")]
             (λ n, if decide (n = 21) then Some PermissionError else None).

(** The application with [/app/server.py] touched at tick 6 and child 100
    running; 100 has the child 101, which the supervisor may not signal. *)
Definition refused_reload_world : world :=
  World (λ p, match one_file "/app/server.py" 6 "" p with
              | Some n => Some n
              | None => proc_fs [("100", "101 "); ("101", "")] p
              end)
        (λ n, if decide (n = 101) then Some PermissionError else None) Linux
        [Some (Module (Some "/app/server.py"))]
        "/usr/bin/python3" "/app/server.py" ["--port"; "8000"] None (λ _, None).

(** [python -c "..."]: no script, [argv[0]] is ["-c"]. *)
Definition dash_c_world : world :=
  World empty_fs (λ _, None) Linux [] "/usr/bin/python3" "-c" [] None (λ _, None).

(** [python -m myapp --debug] *)
Definition module_world : world :=
  World empty_fs (λ _, None) Linux [] "/usr/bin/python3"
        "/srv/myapp/__main__.py" ["--debug"] (Some "myapp.__main__") (λ _, None).

(** A statement met in world [w] that makes no [Popen] call. *)
Definition quiet (w : world) : world * Reloader.spawn_result :=
  (w, Reloader.SpawnError FileNotFoundError).

(** A run with one reload: child 100 is started, the first pass records
    the timestamps, [/app/server.py] is touched, child 100 is terminated
    and child 200 started and stored. *)
Definition reload_script : list (world * Reloader.spawn_result) :=
  [ (app_world 5, Reloader.Spawned 100); quiet (app_world 5); quiet (app_world 5);
    quiet (app_world 5); quiet (app_world 5); quiet (app_world 5);
    quiet (app_world 6); quiet (app_world 6); quiet (app_world 6);
    quiet (app_world 6); (app_world 6, Reloader.Spawned 200);
    quiet (app_world 6) ].

(** Child 200 has one child of its own, 201. *)
Definition worker_tree_world : world :=
  proc_world [("200", "201 "); ("201", "")] (λ _, None).

(** The same run stopped after the [Popen] call of line 159, before its
    result is stored. *)
Definition reload_script_before_store : list (world * Reloader.spawn_result) :=
  take 11 reload_script.

(** Two modules loaded from one file, one from a compiled file whose source
    is gone, one from inside an archive. *)
Definition modules_world : world :=
  World (λ p, if decide (p = "/app/a.py") then Some (Inode true 4 "")
              else if decide (p = "/app/__pycache__/b.pyc") then Some (Inode true 7 "")
              else if decide (p = "/lib/pkg.zip") then Some (Inode true 9 "")
              else None)
        (λ _, None) Linux
        [Some (Module (Some "/app/a.py")); None; Some (Module (Some "/app/a.py"));
         Some (Module (Some "/app/__pycache__/b.pyc"));
         Some (Module (Some "/lib/pkg.zip/pkg/mod.py")); Some (Module (Some ""))]
        "/usr/bin/python3" "/app/a.py" [] None (λ _, None).

(** * Verification *)

(** ** Strings *)

Lemma str_app_cons a q s : String a q +:+ s = String a (q +:+ s).
Proof. done. Qed.

Lemma str_app_assoc s1 s2 s3 : (s1 +:+ s2) +:+ s3 = s1 +:+ s2 +:+ s3.
Proof. induction s1 as [|a q IH]; [done|]. by rewrite !str_app_cons, IH. Qed.

Lemma str_len_app s1 s2 : PyStr.len (s1 +:+ s2) = (PyStr.len s1 + PyStr.len s2)%nat.
Proof.
  unfold PyStr.len. induction s1 as [|a q IH]; [done|].
  rewrite str_app_cons. simpl. by rewrite IH.
Qed.

Lemma str_take_drop n s : PyStr.take n s +:+ PyStr.drop n s = s.
Proof.
  revert s; induction n as [|n IH]; intros [|c q]; simpl; try done.
  by rewrite str_app_cons, IH.
Qed.

Lemma str_take_app_len s1 s2 : PyStr.take (PyStr.len s1) (s1 +:+ s2) = s1.
Proof.
  unfold PyStr.len. induction s1 as [|a q IH]; [by destruct s2|].
  rewrite str_app_cons. simpl. by rewrite IH.
Qed.

Lemma str_drop_last_app stem c : PyStr.drop_last (stem +:+ String c "") = stem.
Proof.
  unfold PyStr.drop_last. rewrite str_len_app. unfold PyStr.len at 2. simpl.
  replace (PyStr.len stem + 1 - 1)%nat with (PyStr.len stem) by lia.
  apply str_take_app_len.
Qed.

(** ** Enumeration of module files *)

Section Enumeration.
Import Reloader.
Variable fs : filesystem.

(** The loop of lines 24-28, one iteration at a time. *)
Lemma walk_step filename :
  walk fs filename =
    if isfile fs filename then Some filename
    else if decide (PyStr.dirname filename = filename) then None
    else walk fs (PyStr.dirname filename).
Proof.
  funelim (walk fs filename).
  - by rewrite Heq.
  - by rewrite Heq0, Heq.
  - by rewrite Heq0, Heq.
Qed.

Lemma ancestor_S k filename :
  ancestor (S k) filename = ancestor k (PyStr.dirname filename).
Proof. apply Nat.iter_succ_r. Qed.

(** The walk stops within [len filename] rounds, at the first ancestor that
    is a file or at a fixed point of [dirname] with no file on the way. *)
Lemma walk_stops filename :
  ∃ n, (n ≤ PyStr.len filename)%nat ∧
    (∀ k, (k < n)%nat → isfile fs (ancestor k filename) = false) ∧
    ((isfile fs (ancestor n filename) = true ∧
      walk fs filename = Some (ancestor n filename)) ∨
     (isfile fs (ancestor n filename) = false ∧
      PyStr.dirname (ancestor n filename) = ancestor n filename ∧
      walk fs filename = None)).
Proof.
  funelim (walk fs filename).
  - exists 0%nat. split; [lia|]. split; [lia|]. by left.
  - exists 0%nat. split; [lia|]. split; [lia|]. by right.
  - destruct H as (n & Hn & Hbefore & Hend).
    exists (S n). pose proof (PyStr.dirname_shorter _ Hne).
    split; [lia|]. split.
    + intros [|k] Hk; [done|]. rewrite ancestor_S. apply Hbefore. lia.
    + by rewrite !ancestor_S.
Qed.

Lemma walk_Some_isfile filename f :
  walk fs filename = Some f → isfile fs f = true.
Proof.
  destruct (walk_stops filename) as (n & _ & _ & [[Hf Hw]|(_ & _ & Hw)]);
    rewrite Hw; intros; by simplify_eq.
Qed.

Lemma source_name_compiled f :
  PyStr.last_n 4 f ∈ [".pyc"; ".pyo"] →
  ∃ stem, (f = stem +:+ ".pyc" ∨ f = stem +:+ ".pyo") ∧
          source_name f = stem +:+ ".py".
Proof.
  intros Hin. unfold source_name. rewrite bool_decide_eq_true_2 by done.
  exists (PyStr.take (PyStr.len f - 4) f).
  pose proof (str_take_drop (PyStr.len f - 4) f) as Hsplit.
  unfold PyStr.last_n in Hin.
  assert (∀ stem c, PyStr.drop_last (stem +:+ ".py" +:+ String c "") = stem +:+ ".py")
    as Hdrop.
  { intros stem c. rewrite <- str_app_assoc. apply str_drop_last_app. }
  apply elem_of_cons in Hin as [Hc|Hin].
  - rewrite Hc in Hsplit. split; [by left|].
    rewrite <- Hsplit at 1. apply (Hdrop _ "c"%char).
  - apply list_elem_of_singleton in Hin. rewrite Hin in Hsplit.
    split; [by right|]. rewrite <- Hsplit at 1. apply (Hdrop _ "o"%char).
Qed.

End Enumeration.

Example walk_no_file :
  Reloader.module_files empty_fs (Some (Module (Some "/pkg/a/b/c/mod.py"))) = [].
Proof. reflexivity. Qed.

Example walk_archive :
  Reloader.module_files (one_file "/site/lib.zip" 1 "")
    (Some (Module (Some "/site/lib.zip/a/b/mod.py"))) = ["/site/lib.zip"].
Proof. reflexivity. Qed.

(** C7. For every filesystem and every path, the ancestor walk of
    [_iter_module_files] ends after at most [len filename] rounds of
    [dirname]: either at the first ancestor that is an existing file, which
    is then yielded after suffix normalisation, or at an ancestor that
    [dirname] maps to itself with no file met on the way, in which case the
    entry yields nothing. *)
Theorem ancestor_walk_terminates (fs : filesystem) (filename : string) :
  ∃ n, (n ≤ PyStr.len filename)%nat ∧
    (∀ k, (k < n)%nat → isfile fs (Reloader.ancestor k filename) = false) ∧
    ((isfile fs (Reloader.ancestor n filename) = true ∧
      Reloader.walk fs filename = Some (Reloader.ancestor n filename) ∧
      Reloader.module_files fs (Some (Module (Some filename))) =
        if decide (filename = "") then []
        else [Reloader.source_name (Reloader.ancestor n filename)]) ∨
     (isfile fs (Reloader.ancestor n filename) = false ∧
      PyStr.dirname (Reloader.ancestor n filename) = Reloader.ancestor n filename ∧
      Reloader.walk fs filename = None ∧
      Reloader.module_files fs (Some (Module (Some filename))) = [])).
Proof.
  destruct (walk_stops fs filename) as (n & Hn & Hbefore & Hend).
  exists n. split; [done|]. split; [done|].
  unfold Reloader.module_files. simpl.
  destruct Hend as [[Hf Hw]|(Hf & Hfix & Hw)]; rewrite Hw.
  - left. repeat split; try done.
    destruct (decide (filename = "")) as [->|Hne].
    + by rewrite bool_decide_eq_true_2.
    + by rewrite bool_decide_eq_false_2.
  - right. repeat split; try done. by case_bool_decide.
Qed.

(** C9. When the file found by the ancestor walk ends in [".pyc"] or
    [".pyo"], the entry yields that name without its last character, that
    is the [".py"] name, whatever is on disk under that name: the rewritten
    path is not tested again, so a path that is not an existing file is
    yielded when the source file is missing. *)
Theorem compiled_suffix_not_rechecked (fs : filesystem) (filename f : string) :
  filename ≠ "" →
  Reloader.walk fs filename = Some f →
  PyStr.last_n 4 f ∈ [".pyc"; ".pyo"] →
  ∃ stem,
    (f = stem +:+ ".pyc" ∨ f = stem +:+ ".pyo") ∧
    isfile fs f = true ∧
    Reloader.module_files fs (Some (Module (Some filename))) = [stem +:+ ".py"] ∧
    stem +:+ ".py" = PyStr.drop_last f ∧
    (isfile fs (stem +:+ ".py") = false →
     ∃ p, p ∈ Reloader.module_files fs (Some (Module (Some filename))) ∧
          isfile fs p = false).
Proof.
  intros Hne Hw Hsuf.
  destruct (source_name_compiled f Hsuf) as (stem & Hf & Hsrc).
  assert (PyStr.drop_last f = stem +:+ ".py") as Hdrop.
  { rewrite <- Hsrc. unfold Reloader.source_name.
    by rewrite bool_decide_eq_true_2. }
  assert (Reloader.module_files fs (Some (Module (Some filename)))
          = [stem +:+ ".py"]) as Hyield.
  { unfold Reloader.module_files. simpl.
    rewrite bool_decide_eq_false_2 by done. by rewrite Hw, Hsrc. }
  exists stem. split; [done|]. split; [by eapply walk_Some_isfile|].
  split; [done|]. split; [done|].
  intros Hmissing. exists (stem +:+ ".py"). split; [|done].
  rewrite Hyield. left.
Qed.

Lemma compiled_suffix_not_rechecked_witness :
  ∃ p, p ∈ Reloader.module_files (one_file "/app/__pycache__/views.pyc" 3 "")
             (Some (Module (Some "/app/__pycache__/views.pyc"))) ∧
       isfile (one_file "/app/__pycache__/views.pyc" 3 "") p = false.
Proof.
  destruct (compiled_suffix_not_rechecked
              (one_file "/app/__pycache__/views.pyc" 3 "")
              "/app/__pycache__/views.pyc" "/app/__pycache__/views.pyc")
    as (stem & _ & _ & _ & Hdrop & Hmissing).
  - discriminate.
  - reflexivity.
  - vm_compute. constructor.
  - apply Hmissing. rewrite Hdrop. reflexivity.
Defined.

Example compiled_suffix_yield :
  Reloader.module_files (one_file "/app/__pycache__/views.pyc" 3 "")
    (Some (Module (Some "/app/__pycache__/views.pyc")))
  = ["/app/__pycache__/views.py"].
Proof. reflexivity. Qed.

(** ** The poll loop *)

Section Poll.
Import Reloader.
Variable fs : filesystem.

Lemma observe_flag mtimes need_reload p :
  (observe fs (mtimes, need_reload) p).2 = need_reload || increased fs mtimes p.
Proof.
  unfold observe, increased. simpl.
  destruct (stat_mtime fs p) as [m|]; [|by rewrite orb_false_r].
  destruct (mtimes !! p) as [old|]; simpl; [|by rewrite orb_false_r].
  case_bool_decide; simpl; [by rewrite orb_true_r|by rewrite orb_false_r].
Qed.

Lemma observe_lookup mtimes need_reload p q :
  (observe fs (mtimes, need_reload) p).1 !! q =
    if decide (q = p) then recorded fs mtimes p else mtimes !! q.
Proof.
  unfold observe, recorded. simpl.
  destruct (stat_mtime fs p) as [m|] eqn:Hs; [|by case_decide; subst].
  destruct (mtimes !! p) as [old|] eqn:Hold; simpl.
  - case_bool_decide; simpl.
    + rewrite lookup_insert. repeat case_decide; subst; try done.
      f_equal. lia.
    + case_decide; subst; [|done]. rewrite Hold. f_equal. lia.
  - rewrite lookup_insert. by repeat case_decide; subst.
Qed.

(** Once [p] has been observed, a second look at it in the same snapshot
    finds nothing new. *)
Lemma increased_after_observe mtimes need_reload p q :
  increased fs mtimes p || increased fs (observe fs (mtimes, need_reload) p).1 q
  = increased fs mtimes p || increased fs mtimes q.
Proof.
  unfold increased at 2. rewrite observe_lookup.
  destruct (decide (q = p)) as [->|Hne]; [|done].
  unfold increased, recorded.
  destruct (stat_mtime fs p) as [m|]; [|done].
  destruct (mtimes !! p) as [old|]; simpl.
  - repeat case_bool_decide; try done; lia.
  - case_bool_decide; [lia|done].
Qed.

Lemma recorded_after_observe mtimes need_reload p q :
  recorded fs (observe fs (mtimes, need_reload) p).1 q = recorded fs mtimes q.
Proof.
  unfold recorded at 1. rewrite observe_lookup.
  destruct (decide (q = p)) as [->|Hne]; [|done].
  unfold recorded.
  destruct (stat_mtime fs p) as [m|]; [|done].
  destruct (mtimes !! p) as [old|]; f_equal; lia.
Qed.

Lemma foldl_observe_flag files mtimes need_reload :
  (foldl (observe fs) (mtimes, need_reload) files).2
  = need_reload || existsb (increased fs mtimes) files.
Proof.
  revert mtimes need_reload.
  induction files as [|p files IH]; intros mtimes need_reload; simpl.
  - by rewrite orb_false_r.
  - destruct (observe fs (mtimes, need_reload) p) as [mtimes' flag] eqn:Hobs.
    rewrite IH.
    assert (flag = need_reload || increased fs mtimes p) as ->.
    { by rewrite <- observe_flag, Hobs. }
    assert (mtimes' = (observe fs (mtimes, need_reload) p).1) as ->
      by by rewrite Hobs.
    rewrite <- !orb_assoc. f_equal.
    clear IH Hobs.
    destruct (increased fs mtimes p) eqn:Hp; [done|]. simpl.
    induction files as [|q files IH]; simpl; [done|].
    pose proof (increased_after_observe mtimes need_reload p q) as Hq.
    rewrite Hp in Hq. simpl in Hq. by rewrite Hq, IH.
Qed.

Lemma foldl_observe_lookup files mtimes need_reload q :
  (foldl (observe fs) (mtimes, need_reload) files).1 !! q =
    if bool_decide (q ∈ files) then recorded fs mtimes q else mtimes !! q.
Proof.
  revert mtimes need_reload.
  induction files as [|p files IH]; intros mtimes need_reload; cbn [foldl].
  - by rewrite bool_decide_eq_false_2 by apply not_elem_of_nil.
  - destruct (observe fs (mtimes, need_reload) p) as [mtimes' flag] eqn:Hobs.
    rewrite IH.
    assert (mtimes' = (observe fs (mtimes, need_reload) p).1) as ->
      by by rewrite Hobs.
    rewrite recorded_after_observe, observe_lookup.
    destruct (decide (q = p)) as [->|Hne].
    + rewrite (bool_decide_eq_true_2 (p ∈ p :: files)) by left.
      by case_bool_decide.
    + case_bool_decide as Hin.
      * by rewrite bool_decide_eq_true_2 by by right.
      * rewrite bool_decide_eq_false_2; [done|].
        by intros [?|?]%elem_of_cons.
Qed.

Lemma poll_need_reload mtimes files :
  (poll fs mtimes files).2 = existsb (increased fs mtimes) files.
Proof. apply foldl_observe_flag. Qed.

Lemma poll_need_reload_iff mtimes files :
  (poll fs mtimes files).2 = true ↔
  ∃ p old_time mtime, p ∈ files ∧ mtimes !! p = Some old_time ∧
    stat_mtime fs p = Some mtime ∧ old_time < mtime.
Proof.
  rewrite poll_need_reload, existsb_exists. split.
  - intros (p & Hin%list_elem_of_In & Hinc). unfold increased in Hinc.
    destruct (stat_mtime fs p) as [m|] eqn:Hs; [|done].
    destruct (mtimes !! p) as [old|] eqn:Hold; [|done].
    apply bool_decide_eq_true_1 in Hinc. by exists p, old, m.
  - intros (p & old & m & Hin & Hold & Hs & Hlt).
    exists p. split; [by apply list_elem_of_In|].
    unfold increased. rewrite Hs, Hold. by apply bool_decide_eq_true_2.
Qed.

Lemma poll_lookup mtimes files q :
  (poll fs mtimes files).1 !! q =
    if bool_decide (q ∈ files) then recorded fs mtimes q else mtimes !! q.
Proof. apply foldl_observe_lookup. Qed.

End Poll.

Example first_cycle_no_reload :
  (Reloader.poll (fs (app_world 5)) ∅ (Reloader._iter_module_files (app_world 5))).2 = false.
Proof. reflexivity. Qed.

Example touched_file_reloads :
  (Reloader.poll (fs (app_world 6)) {["/app/server.py" := 5]}
     (Reloader._iter_module_files (app_world 6))).2 = true.
Proof. reflexivity. Qed.

Example same_mtime_no_reload :
  (Reloader.poll (fs (app_world 5)) {["/app/server.py" := 5]}
     (Reloader._iter_module_files (app_world 5))).2 = false.
Proof. reflexivity. Qed.

(** C1, as amended.  One pass of the poll loop over a filesystem snapshot,
    from any table [mtimes0]: the pass ends at line 156 with [need_reload]
    set if and only if some enumerated path that [os.stat] can read is
    already in the table with a strictly smaller recorded time.  For such a
    path the record becomes the new time; for an enumerated path whose new
    time is not greater the record stays as it was and the path sets
    nothing.  With [need_reload] unset the iteration goes straight to the
    sleep of line 161 with the same child; with it set, line 157 is
    reached.  From there the reload is carried through (the children of the
    child killed, the child terminated, a new one started and made the
    current child) when [kill_process_children] returns,
    [_get_args_for_reloading] returns and [Popen] starts the child; when
    [kill_process_children] raises, the exception leaves [watchdog] with
    the table already updated and the child neither terminated nor
    replaced. *)
Theorem reload_iff_mtime_increased
    (w : world) (mtimes0 : gmap string Z) (worker : Reloader.Popen)
    (h1 h2 : bool) :
  let files := Reloader._iter_module_files w in
  let r := Reloader.poll (fs w) mtimes0 files in
  let at_poll := Watchdog.State Watchdog.AtPoll mtimes0 (Some worker) h1 h2 in
  (r.2 = true ↔
     ∃ p old_time mtime, p ∈ files ∧ mtimes0 !! p = Some old_time ∧
       stat_mtime (fs w) p = Some mtime ∧ old_time < mtime) ∧
  (∀ p old_time mtime,
     p ∈ files → mtimes0 !! p = Some old_time →
     stat_mtime (fs w) p = Some mtime →
     (old_time < mtime → r.1 !! p = Some mtime) ∧
     (mtime ≤ old_time →
      r.1 !! p = Some old_time ∧ increased (fs w) mtimes0 p = false)) ∧
  (∀ spawn,
     Watchdog.step w spawn at_poll
     = Some ([], Watchdog.State (Watchdog.AtCheck r.2) r.1 (Some worker) h1 h2)) ∧
  (r.2 = false →
   Watchdog.exec [quiet w; quiet w] at_poll
   = ([], Watchdog.State Watchdog.AtSleep r.1 (Some worker) h1 h2)) ∧
  (r.2 = true →
   ∀ t args new,
     Reloader.kill_process_children w (Reloader.pid worker) = (t, Return tt) →
     Reloader._get_args_for_reloading w = ([], Return args) →
     Watchdog.exec [quiet w; quiet w; quiet w; quiet w;
                    (w, Reloader.Spawned new); quiet w] at_poll
     = (t ++ [ETerminate (Reloader.pid worker); EPopen args new],
        Watchdog.State Watchdog.AtSleep r.1
          (Some {| Reloader.pid := new |}) h1 h2)) ∧
  (r.2 = true →
   Watchdog.exec [quiet w; quiet w] at_poll
   = ([], Watchdog.State Watchdog.AtKillChildren r.1 (Some worker) h1 h2)) ∧
  (r.2 = true →
   ∀ t e script,
     Reloader.kill_process_children w (Reloader.pid worker) = (t, Raise e) →
     Watchdog.exec (quiet w :: quiet w :: quiet w :: script) at_poll
     = (t, Watchdog.State (Watchdog.Crashed e) r.1 (Some worker) h1 h2)).
Proof.
  intros files r at_poll.
  assert (∀ spawn, Watchdog.step w spawn at_poll
     = Some ([], Watchdog.State (Watchdog.AtCheck r.2) r.1 (Some worker) h1 h2))
    as Hstep.
  { intros spawn. unfold Watchdog.step. simpl. fold files. fold r.
    by destruct r. }
  split; [apply poll_need_reload_iff|].
  split; [|split; [done|split; [|split; [|split]]]].
  - intros p old m Hin Hold Hs. subst r.
    rewrite poll_lookup, bool_decide_eq_true_2 by done.
    unfold recorded, increased. rewrite Hs, Hold.
    split; [intros; f_equal; lia|].
    intros. split; [f_equal; lia|]. apply bool_decide_eq_false_2. lia.
  - intros Hr. unfold quiet. cbn [Watchdog.exec]. rewrite Hstep, Hr. done.
  - intros Hr t args new Hkill Hargs. unfold quiet. cbn [Watchdog.exec].
    rewrite Hstep, Hr.
    unfold Watchdog.step, Watchdog.load_worker, Reloader.terminate,
      Reloader.restart_with_reloader.
    cbn -[Reloader.kill_process_children Reloader._get_args_for_reloading].
    rewrite Hkill.
    cbn -[Reloader.kill_process_children Reloader._get_args_for_reloading].
    rewrite Hargs. simpl. done.
  - intros Hr. unfold quiet. cbn [Watchdog.exec]. rewrite Hstep, Hr. done.
  - intros Hr t e script Hkill. unfold quiet. cbn [Watchdog.exec].
    rewrite Hstep, Hr.
    unfold Watchdog.step, Watchdog.load_worker.
    cbn -[Reloader.kill_process_children Watchdog.exec].
    rewrite Hkill.
    cbn -[Reloader.kill_process_children Watchdog.exec].
    destruct script as [|[w' spawn'] script]; simpl; by rewrite ?app_nil_r.
Qed.

Lemma reload_iff_mtime_increased_witness :
  Watchdog.exec [quiet (app_world 6); quiet (app_world 6); quiet (app_world 6);
                 quiet (app_world 6); (app_world 6, Reloader.Spawned 200);
                 quiet (app_world 6)]
    (Watchdog.State Watchdog.AtPoll {["/app/server.py" := 5]}
       (Some {| Reloader.pid := 100 |}) true true)
  = ([] ++ [ETerminate 100;
            EPopen ["/usr/bin/python3"; "/app/server.py"; "--port"; "8000"] 200],
     Watchdog.State Watchdog.AtSleep
       (Reloader.poll (fs (app_world 6)) {["/app/server.py" := 5]}
          (Reloader._iter_module_files (app_world 6))).1
       (Some {| Reloader.pid := 200 |}) true true).
Proof.
  apply (reload_iff_mtime_increased (app_world 6) {["/app/server.py" := 5]}
           {| Reloader.pid := 100 |} true true).
  - apply (reload_iff_mtime_increased (app_world 6) {["/app/server.py" := 5]}
             {| Reloader.pid := 100 |} true true).
    exists "/app/server.py", 5, 6.
    split; [vm_compute; constructor; constructor|]. by repeat split.
  - reflexivity.
  - reflexivity.
Defined.

(** The claim as first stated fails at line 157.  [/app/server.py],
    recorded at 5, is now at 6, so [need_reload] is set; the child 100 has
    one child, 101, and [os.kill(101)] is refused with [PermissionError].
    The exception leaves [kill_process_children] and [watchdog]: child 100
    is not terminated, no new child is started, and [worker_process] still
    holds 100. *)
Lemma reload_refused_counterexample :
  let w := refused_reload_world in
  let at_poll := Watchdog.State Watchdog.AtPoll {["/app/server.py" := 5]}
                   (Some {| Reloader.pid := 100 |}) true true in
  let run := Watchdog.exec [quiet w; quiet w; quiet w; quiet w;
                            (w, Reloader.Spawned 200); quiet w] at_poll in
  (Reloader.poll (fs w) {["/app/server.py" := 5]}
     (Reloader._iter_module_files w)).2 = true ∧
  Reloader.kill_process_children w 100
    = ([EKill 101 SIGTERM], Raise PermissionError) ∧
  run.1 = [EKill 101 SIGTERM] ∧
  Watchdog.at_pc run.2 = Watchdog.Crashed PermissionError ∧
  Watchdog.worker_process run.2 = Some {| Reloader.pid := 100 |} ∧
  Watchdog.mtimes run.2 !! "/app/server.py" = Some 6 ∧
  (ETerminate 100 ∉ run.1) ∧
  (∀ args new, EPopen args new ∉ run.1).
Proof.
  intros w at_poll run.
  assert (run.1 = [EKill 101 SIGTERM]) as Hrun by (vm_compute; reflexivity).
  repeat split; try (vm_compute; reflexivity); rewrite Hrun.
  - by intros [=]%list_elem_of_singleton.
  - by intros args new [=]%list_elem_of_singleton.
Qed.

Lemma existsb_filter_out {A} (f : A → bool) (P : A → Prop)
    `{!∀ x, Decision (P x)} (l : list A) :
  (∀ x, ¬ P x → f x = false) → existsb f (filter P l) = existsb f l.
Proof.
  intros Hf. induction l as [|x l IH]; [done|].
  rewrite filter_cons. simpl. case_decide as HP; simpl; rewrite IH; [done|].
  by rewrite Hf.
Qed.

(** C4. A path that [os.stat] can read and that has no entry in the table
    when it is observed gets its time recorded and leaves [need_reload] as
    it was.  Over a whole pass on a snapshot: the table ends with that time
    for the path, the pass sets [need_reload] exactly as it would with the
    path left out of the enumeration, and a pass in which every enumerated
    path is new sets nothing. *)
Theorem first_sight_sets_baseline
    (fs : filesystem) (mtimes0 : gmap string Z) (files : list string)
    (p : string) (mtime : Z) :
  mtimes0 !! p = None →
  stat_mtime fs p = Some mtime →
  p ∈ files →
  (∀ need_reload, Reloader.observe fs (mtimes0, need_reload) p
                  = (<[p := mtime]> mtimes0, need_reload)) ∧
  (Reloader.poll fs mtimes0 files).1 !! p = Some mtime ∧
  (Reloader.poll fs mtimes0 files).2
    = (Reloader.poll fs mtimes0 (filter (λ q, q ≠ p) files)).2 ∧
  ((∀ q, q ∈ files → mtimes0 !! q = None) →
   (Reloader.poll fs mtimes0 files).2 = false).
Proof.
  intros Hnew Hs Hin. split; [|split; [|split]].
  - intros need_reload. unfold Reloader.observe. simpl. by rewrite Hs, Hnew.
  - rewrite poll_lookup, bool_decide_eq_true_2 by done.
    unfold recorded. by rewrite Hs, Hnew.
  - rewrite !poll_need_reload. symmetry. apply existsb_filter_out.
    intros q Hq. apply dec_stable in Hq as ->.
    unfold increased. by rewrite Hs, Hnew.
  - intros Hall. apply not_true_is_false.
    intros (q & old & m & Hq & Hold & _)%poll_need_reload_iff.
    rewrite Hall in Hold; done.
Qed.

Lemma first_sight_sets_baseline_witness :
  (∀ need_reload,
     Reloader.observe (fs (app_world 5)) ({["/app/other.py" := 1]}, need_reload)
       "/app/server.py"
     = (<["/app/server.py" := 5]> {["/app/other.py" := 1]}, need_reload)) ∧
  (Reloader.poll (fs (app_world 5)) {["/app/other.py" := 1]}
     (Reloader._iter_module_files (app_world 5))).1 !! "/app/server.py" = Some 5 ∧
  (Reloader.poll (fs (app_world 5)) {["/app/other.py" := 1]}
     (Reloader._iter_module_files (app_world 5))).2
  = (Reloader.poll (fs (app_world 5)) {["/app/other.py" := 1]}
       (filter (λ q, q ≠ "/app/server.py")
          (Reloader._iter_module_files (app_world 5)))).2 ∧
  ((∀ q, q ∈ Reloader._iter_module_files (app_world 5) →
      ({["/app/other.py" := 1]} : gmap string Z) !! q = None) →
   (Reloader.poll (fs (app_world 5)) {["/app/other.py" := 1]}
      (Reloader._iter_module_files (app_world 5))).2 = false).
Proof.
  apply (first_sight_sets_baseline (fs (app_world 5)) {["/app/other.py" := 1]}
           (Reloader._iter_module_files (app_world 5)) "/app/server.py" 5).
  - reflexivity.
  - reflexivity.
  - vm_compute. constructor.
Defined.

(** ** The effect monad *)

Section Monad.
Context {A B : Type}.

Lemma bind_Return (m : M A) (k : A → M B) t a :
  m = (t, Return a) → Sys.bind m k = (t ++ trace (k a), result (k a)).
Proof. intros ->. simpl. by destruct (k a). Qed.

Lemma bind_Raise (m : M A) (k : A → M B) t e :
  m = (t, Raise e) → Sys.bind m k = (t, Raise e).
Proof. by intros ->. Qed.

Lemma bind_trace_elem (m : M A) (k : A → M B) ev :
  ev ∈ trace (Sys.bind m k) →
  ev ∈ trace m ∨ ∃ a, result m = Return a ∧ ev ∈ trace (k a).
Proof.
  destruct m as [t [a|e|c]]; simpl; eauto.
  destruct (k a) as [t' r] eqn:Hk. simpl.
  intros [?|?]%elem_of_app; [by left|right].
  exists a. by rewrite Hk.
Qed.

End Monad.

Section ForEach.
Context {A : Type} (body : A → M unit).

Lemma for_each_app l1 l2 :
  for_each (l1 ++ l2) body = Sys.bind (for_each l1 body) (λ _, for_each l2 body).
Proof.
  induction l1 as [|x l1 IH]; simpl.
  - by destruct (for_each l2 body).
  - rewrite IH. destruct (body x) as [t [[]|e|c]]; simpl; try done.
    destruct (for_each l1 body) as [t1 [[]|e|c]]; simpl; try done.
    + destruct (for_each l2 body) as [t2 r2]. by rewrite app_assoc.
Qed.

(** A body that raises ends the loop: nothing is run for the rest. *)
Lemma for_each_raise x l e :
  result (body x) = Raise e → for_each (x :: l) body = (trace (body x), Raise e).
Proof. simpl. destruct (body x) as [t r]. simpl. by intros ->. Qed.

(** A body that returns hands over to the rest of the list. *)
Lemma for_each_continue x l :
  result (body x) = Return tt →
  for_each (x :: l) body
  = (trace (body x) ++ trace (for_each l body), result (for_each l body)).
Proof.
  simpl. destruct (body x) as [t r]. simpl. intros ->.
  by destruct (for_each l body).
Qed.

Lemma for_each_all_return l (tr : A → list event) :
  Forall (λ x, body x = (tr x, Return tt)) l →
  for_each l body = (l ≫= tr, Return tt).
Proof.
  induction 1 as [|x l Hx _ IH]; [done|].
  rewrite for_each_continue by by rewrite Hx.
  by rewrite IH, Hx.
Qed.

Lemma for_each_trace_elem l ev :
  ev ∈ trace (for_each l body) → ∃ x, x ∈ l ∧ ev ∈ trace (body x).
Proof.
  induction l as [|x l IH]; simpl; [by intros ?%elem_of_nil|].
  intros [?|(_ & _ & Hl)]%bind_trace_elem.
  - exists x. split; [left|done].
  - destruct (IH Hl) as (y & ? & ?). exists y. split; [by right|done].
Qed.

Lemma for_each_result_raise l e :
  result (for_each l body) = Raise e → ∃ x, x ∈ l ∧ result (body x) = Raise e.
Proof.
  induction l as [|x l IH]; simpl; [done|].
  destruct (body x) as [t [[]|e'|c]] eqn:Hx; simpl.
  - destruct (for_each l body) as [t' r'] eqn:Hl. simpl in *.
    intros Hr. destruct (IH Hr) as (y & ? & ?).
    exists y. split; [by right|done].
  - intros [= ->]. exists x. split; [left|by rewrite Hx].
  - done.
Qed.

End ForEach.

(** ** Killing the descendants through /proc *)

Section ProcTree.
Import Reloader.
Variable w : world.

Lemma read_pids_isfile path :
  isfile (fs w) path = true → read_pids w path = ([], Return (listed w path)).
Proof.
  unfold isfile, read_pids, read_text, listed.
  destruct (fs w path) as [n|]; [|done]. by intros ->.
Qed.

Lemma try_kill_cases tok :
  match PyStr.int tok with
  | None => try_kill w tok = ([], Raise (ValueError tok))
  | Some n =>
      match os_kill w n with
      | None | Some ProcessLookupError =>
          try_kill w tok = ([EKill n SIGTERM], Return tt)
      | Some e => try_kill w tok = ([EKill n SIGTERM], Raise e)
      end
  end.
Proof.
  unfold try_kill, Sys.int, kill.
  destruct (PyStr.int tok) as [n|]; simpl; [|done].
  by destruct (os_kill w n) as [[]|].
Qed.

Lemma try_kill_benign tok :
  benign w tok → try_kill w tok = (sigterm tok, Return tt).
Proof.
  intros (n & Hn & Hk). pose proof (try_kill_cases tok) as H.
  unfold sigterm. rewrite Hn in *. by destruct Hk as [Hk|Hk]; rewrite Hk in H.
Qed.

Lemma try_kill_trace tok ev : ev ∈ trace (try_kill w tok) → ev ∈ sigterm tok.
Proof.
  pose proof (try_kill_cases tok) as H. unfold sigterm.
  destruct (PyStr.int tok) as [n|]; [|by rewrite H].
  by destruct (os_kill w n) as [[]|]; rewrite H.
Qed.

Lemma try_kill_never_lookup_error tok :
  result (try_kill w tok) ≠ Raise ProcessLookupError.
Proof.
  pose proof (try_kill_cases tok) as H.
  destruct (PyStr.int tok) as [n|]; [|by rewrite H].
  by destruct (os_kill w n) as [[]|]; rewrite H.
Qed.

(** Why a [try_kill] raised. *)
Lemma try_kill_raise tok e :
  result (try_kill w tok) = Raise e →
  e ≠ ProcessLookupError ∧
  ((PyStr.int tok = None ∧ e = ValueError tok) ∨
   (∃ n, PyStr.int tok = Some n ∧ os_kill w n = Some e)).
Proof.
  pose proof (try_kill_cases tok) as H.
  destruct (PyStr.int tok) as [n|]; [|rewrite H; intros [= <-]; eauto].
  destruct (os_kill w n) as [[]|] eqn:Hk; rewrite H; simpl;
    intros [= <-]; split; try done; right; eauto.
Qed.

Lemma kill_subtree_unfold c :
  kill_subtree w c =
    if has_children_file w c
    then Sys.bind (for_each (grandchildren w c) (try_kill w)) (λ _, try_kill w c)
    else ([], Return tt).
Proof.
  unfold kill_subtree, has_children_file, grandchildren.
  destruct (isfile (fs w) (children_path c)) eqn:Hf; simpl; [|done].
  rewrite read_pids_isfile by done. simpl.
  by destruct (Sys.bind _ _).
Qed.

Lemma kill_subtree_benign c :
  (has_children_file w c = true →
   benign w c ∧ Forall (benign w) (grandchildren w c)) →
  kill_subtree w c = (subtree_signals w c, Return tt).
Proof.
  intros H. rewrite kill_subtree_unfold. unfold subtree_signals.
  destruct (has_children_file w c); [|done].
  destruct H as [Hc Hg]; [done|].
  rewrite (for_each_all_return _ _ sigterm).
  - simpl. by rewrite try_kill_benign.
  - eapply Forall_impl; [done|]. apply try_kill_benign.
Qed.

Lemma kill_subtree_trace c ev :
  ev ∈ trace (kill_subtree w c) →
  has_children_file w c = true ∧
  ∃ tok, tok ∈ c :: grandchildren w c ∧ ev ∈ sigterm tok.
Proof.
  rewrite kill_subtree_unfold.
  destruct (has_children_file w c); [|by intros ?%elem_of_nil].
  intros [Hg|(_ & _ & Hc)]%bind_trace_elem; split; try done.
  - apply for_each_trace_elem in Hg as (g & Hin & Hev).
    exists g. split; [by right|by apply try_kill_trace].
  - exists c. split; [left|by apply try_kill_trace].
Qed.

Lemma kill_subtree_raise c e :
  result (kill_subtree w c) = Raise e →
  e ≠ ProcessLookupError ∧
  ∃ tok, tok ∈ grandchildren w c ++ [c] ∧ result (try_kill w tok) = Raise e.
Proof.
  rewrite kill_subtree_unfold.
  destruct (has_children_file w c); [|done].
  destruct (for_each (grandchildren w c) (try_kill w)) as [t [[]|e'|x]] eqn:Hg;
    simpl.
  - destruct (try_kill w c) as [t' r'] eqn:Hc. simpl. intros ->.
    assert (result (try_kill w c) = Raise e) as Hr by by rewrite Hc.
    split; [by apply try_kill_raise in Hr as [? _]|].
    exists c. split; [|done]. apply elem_of_app. right. left.
  - intros [= ->].
    assert (result (for_each (grandchildren w c) (try_kill w)) = Raise e) as Hr
      by by rewrite Hg.
    apply for_each_result_raise in Hr as (g & Hin & Hr).
    split; [by apply try_kill_raise in Hr as [? _]|].
    exists g. split; [|done]. apply elem_of_app. by left.
  - done.
Qed.

Lemma kill_process_children_unix_unfold root :
  kill_process_children_unix w root =
    if isfile (fs w) (children_path (PyStr.str root))
    then for_each (direct_children w root) (kill_subtree w)
    else ([], Return tt).
Proof.
  unfold kill_process_children_unix, direct_children.
  destruct (isfile (fs w) _) eqn:Hf; simpl; [|done].
  rewrite read_pids_isfile by done. simpl.
  by destruct (for_each _ _).
Qed.

Lemma direct_children_no_file root :
  isfile (fs w) (children_path (PyStr.str root)) = false →
  direct_children w root = [].
Proof.
  unfold direct_children, listed, isfile.
  destruct (fs w _) as [n|]; [|done]. by intros ->.
Qed.

Lemma kill_process_children_unix_benign root :
  (∀ c, c ∈ direct_children w root → has_children_file w c = true →
        benign w c ∧ Forall (benign w) (grandchildren w c)) →
  kill_process_children_unix w root
  = (direct_children w root ≫= subtree_signals w, Return tt).
Proof.
  intros H. rewrite kill_process_children_unix_unfold.
  destruct (isfile (fs w) _) eqn:Hf.
  - apply for_each_all_return. apply Forall_forall.
    intros c Hc. apply kill_subtree_benign. by apply H.
  - by rewrite direct_children_no_file.
Qed.

(** Whatever happens, only tokens read from the two levels of lists are
    signalled. *)
Lemma kill_process_children_unix_trace root ev :
  ev ∈ trace (kill_process_children_unix w root) →
  ∃ tok, tok ∈ descendants w root ∧ ev ∈ sigterm tok.
Proof.
  rewrite kill_process_children_unix_unfold.
  destruct (isfile (fs w) _); [|by intros ?%elem_of_nil].
  intros (c & Hc & Hev)%for_each_trace_elem.
  apply kill_subtree_trace in Hev as (Hf & tok & Htok & Hev).
  exists tok. split; [|done]. unfold descendants.
  apply list_elem_of_bind. exists c. by rewrite Hf.
Qed.

End ProcTree.

Example tree_world_kill :
  Reloader.kill_process_children_unix tree_world 10
  = ([EKill 21 SIGTERM; EKill 11 SIGTERM; EKill 12 SIGTERM], Return tt).
Proof. vm_compute. reflexivity. Qed.

Example refused_world_kill :
  Reloader.kill_process_children_unix refused_world 10
  = ([EKill 21 SIGTERM], Raise PermissionError).
Proof. vm_compute. reflexivity. Qed.

(** C2, as amended.  Provided every token of the two list levels parses
    and no [os.kill] fails with anything but [ProcessLookupError],
    [kill_process_children_unix] returns normally having signalled, for each
    direct child whose own children list exists, first that child's children
    and then the child; it signals only pids read from those lists, hence
    never the root when the root is not listed among its own descendants;
    and it does nothing when the root's children list is absent. *)
Theorem depth_two_kill_order (w : world) (root : Z) :
  (∀ c, c ∈ direct_children w root → has_children_file w c = true →
        benign w c ∧ Forall (benign w) (grandchildren w c)) →
  let run := Reloader.kill_process_children_unix w root in
  result run = Return tt ∧
  trace run = direct_children w root ≫= subtree_signals w ∧
  (∀ c g, c ∈ direct_children w root → has_children_file w c = true →
     g ∈ grandchildren w c →
     ∃ cp gp pre mid post,
       PyStr.int c = Some cp ∧ PyStr.int g = Some gp ∧
       trace run = pre ++ EKill gp SIGTERM :: mid ++ EKill cp SIGTERM :: post) ∧
  (∀ c, c ∈ direct_children w root → has_children_file w c = true →
     ∃ cp, PyStr.int c = Some cp ∧ EKill cp SIGTERM ∈ trace run) ∧
  (∀ ev, ev ∈ trace run →
     ∃ tok n, tok ∈ descendants w root ∧ PyStr.int tok = Some n ∧
              ev = EKill n SIGTERM) ∧
  ((∀ tok, tok ∈ descendants w root → PyStr.int tok ≠ Some root) →
   ∀ sig, EKill root sig ∉ trace run) ∧
  (isfile (fs w) (Reloader.children_path (PyStr.str root)) = false →
   run = ([], Return tt)).
Proof.
  intros Hbenign run.
  assert (∀ ev, ev ∈ trace run →
     ∃ tok n, tok ∈ descendants w root ∧ PyStr.int tok = Some n ∧
              ev = EKill n SIGTERM) as Honly.
  { intros ev (tok & Htok & Hev)%kill_process_children_unix_trace.
    unfold sigterm in Hev. destruct (PyStr.int tok) as [n|] eqn:Hn.
    - apply list_elem_of_singleton in Hev. by exists tok, n.
    - by apply elem_of_nil in Hev. }
  assert (run = (direct_children w root ≫= subtree_signals w, Return tt)) as Hrun
    by by apply kill_process_children_unix_benign.
  assert (∀ c, c ∈ direct_children w root → has_children_file w c = true →
     ∃ cp pre post, PyStr.int c = Some cp ∧
       trace run = pre ++ ((grandchildren w c ≫= sigterm)
                           ++ [EKill cp SIGTERM]) ++ post) as Hchild.
  { intros c Hc Hf. destruct (Hbenign c Hc Hf) as [(cp & Hcp & _) _].
    apply list_elem_of_split in Hc as (l1 & l2 & Hsplit).
    exists cp, (l1 ≫= subtree_signals w), (l2 ≫= subtree_signals w).
    split; [done|]. rewrite Hrun. simpl.
    rewrite Hsplit, bind_app, bind_cons. f_equal. f_equal.
    unfold subtree_signals, sigterm at 2. by rewrite Hf, Hcp. }
  split; [by rewrite Hrun|]. split; [by rewrite Hrun|].
  split; [|split; [|split; [done|split]]].
  - intros c g Hc Hf Hg.
    destruct (Hchild c Hc Hf) as (cp & pre & post & Hcp & Htr).
    destruct (Hbenign c Hc Hf) as [_ Hgs].
    rewrite Forall_forall in Hgs. destruct (Hgs g Hg) as (gp & Hgp & _).
    apply list_elem_of_split in Hg as (g1 & g2 & Hsplit).
    exists cp, gp, (pre ++ (g1 ≫= sigterm)), (g2 ≫= sigterm), post.
    split; [done|]. split; [done|]. rewrite Htr, Hsplit, bind_app, bind_cons.
    unfold sigterm at 2. rewrite Hgp. by rewrite <- !app_assoc.
  - intros c Hc Hf.
    destruct (Hchild c Hc Hf) as (cp & pre & post & Hcp & Htr).
    exists cp. split; [done|]. rewrite Htr.
    rewrite !elem_of_app. right. left. right. left.
  - intros Hroot sig (tok & n & Htok & Hn & [= <- _])%Honly.
    by apply (Hroot tok).
  - intros Hf. subst run.
    by rewrite kill_process_children_unix_unfold, Hf.
Qed.

Lemma depth_two_kill_order_witness :
  let run := Reloader.kill_process_children_unix tree_world 10 in
  result run = Return tt ∧
  trace run = direct_children tree_world 10 ≫= subtree_signals tree_world ∧
  (∀ c g, c ∈ direct_children tree_world 10 →
     has_children_file tree_world c = true →
     g ∈ grandchildren tree_world c →
     ∃ cp gp pre mid post,
       PyStr.int c = Some cp ∧ PyStr.int g = Some gp ∧
       trace run = pre ++ EKill gp SIGTERM :: mid ++ EKill cp SIGTERM :: post) ∧
  (∀ c, c ∈ direct_children tree_world 10 →
     has_children_file tree_world c = true →
     ∃ cp, PyStr.int c = Some cp ∧ EKill cp SIGTERM ∈ trace run) ∧
  (∀ ev, ev ∈ trace run →
     ∃ tok n, tok ∈ descendants tree_world 10 ∧ PyStr.int tok = Some n ∧
              ev = EKill n SIGTERM) ∧
  ((∀ tok, tok ∈ descendants tree_world 10 → PyStr.int tok ≠ Some 10) →
   ∀ sig, EKill 10 sig ∉ trace run) ∧
  (isfile (fs tree_world) (Reloader.children_path (PyStr.str 10)) = false →
   run = ([], Return tt)).
Proof.
  apply (depth_two_kill_order tree_world 10).
  intros c Hc _.
  change (direct_children tree_world 10) with ["11"; "12"] in Hc.
  apply elem_of_cons in Hc as [->|Hc].
  - split; [exists 11; split; [reflexivity|left; reflexivity]|].
    change (grandchildren tree_world "11") with ["21"].
    apply Forall_cons. split; [|apply Forall_nil_2].
    exists 21. split; [reflexivity|right; reflexivity].
  - apply list_elem_of_singleton in Hc as ->.
    split; [exists 12; split; [reflexivity|left; reflexivity]|].
    change (grandchildren tree_world "12") with (@nil string).
    apply Forall_nil_2.
Defined.

(** The claim as first stated fails: a direct child whose own children list
    is absent is passed over without a signal. *)
Lemma skipped_child_counterexample :
  "11" ∈ direct_children orphan_list_world 10 ∧
  PyStr.int "11" = Some 11 ∧
  os_kill orphan_list_world 11 = None ∧
  has_children_file orphan_list_world "11" = false ∧
  Reloader.kill_process_children_unix orphan_list_world 10 = ([], Return tt) ∧
  EKill 11 SIGTERM ∉ trace (Reloader.kill_process_children_unix orphan_list_world 10).
Proof.
  repeat split; try reflexivity.
  - change (direct_children orphan_list_world 10) with ["11"]. left.
  - change (trace (Reloader.kill_process_children_unix orphan_list_world 10))
      with (@nil event).
    apply not_elem_of_nil.
Qed.

(** C8. Signalling a pid that is no longer alive is absorbed: the guarded
    [os.kill] of lines 82-85 and 86-89 makes the call and ends normally, the
    loop over the remaining grandchildren goes on, so does the loop over the
    remaining children, and [kill_process_children_unix] never raises
    [ProcessLookupError]. *)
Theorem dead_pid_is_absorbed (w : world) (tok : string) (n : Z) :
  PyStr.int tok = Some n →
  os_kill w n = Some ProcessLookupError →
  Reloader.try_kill w tok = ([EKill n SIGTERM], Return tt) ∧
  (∀ rest,
     Sys.for_each (tok :: rest) (Reloader.try_kill w)
     = (EKill n SIGTERM :: trace (Sys.for_each rest (Reloader.try_kill w)),
        result (Sys.for_each rest (Reloader.try_kill w)))) ∧
  (∀ rest t,
     has_children_file w tok = true →
     Sys.for_each (grandchildren w tok) (Reloader.try_kill w) = (t, Return tt) →
     Sys.for_each (tok :: rest) (Reloader.kill_subtree w)
     = (t ++ EKill n SIGTERM :: trace (Sys.for_each rest (Reloader.kill_subtree w)),
        result (Sys.for_each rest (Reloader.kill_subtree w)))) ∧
  (∀ root, result (Reloader.kill_process_children_unix w root)
           ≠ Raise ProcessLookupError).
Proof.
  intros Hn Hdead.
  assert (Reloader.try_kill w tok = ([EKill n SIGTERM], Return tt)) as Htry.
  { pose proof (try_kill_cases w tok) as H. by rewrite Hn, Hdead in H. }
  split; [done|]. split; [|split].
  - intros rest. rewrite for_each_continue by by rewrite Htry.
    by rewrite Htry.
  - intros rest t Hf Hg.
    assert (Reloader.kill_subtree w tok = (t ++ [EKill n SIGTERM], Return tt))
      as Hsub.
    { by rewrite kill_subtree_unfold, Hf, Hg, Htry. }
    rewrite for_each_continue by by rewrite Hsub.
    rewrite Hsub. simpl. by rewrite <- app_assoc.
  - intros root Hr.
    rewrite kill_process_children_unix_unfold in Hr.
    destruct (isfile (fs w) _); [|done].
    apply for_each_result_raise in Hr as (c & _ & Hr).
    by apply kill_subtree_raise in Hr as [? _].
Qed.

Lemma dead_pid_is_absorbed_witness :
  Reloader.try_kill tree_world "21" = ([EKill 21 SIGTERM], Return tt) ∧
  (∀ rest,
     Sys.for_each ("21" :: rest) (Reloader.try_kill tree_world)
     = (EKill 21 SIGTERM :: trace (Sys.for_each rest (Reloader.try_kill tree_world)),
        result (Sys.for_each rest (Reloader.try_kill tree_world)))) ∧
  (∀ rest t,
     has_children_file tree_world "21" = true →
     Sys.for_each (grandchildren tree_world "21") (Reloader.try_kill tree_world)
       = (t, Return tt) →
     Sys.for_each ("21" :: rest) (Reloader.kill_subtree tree_world)
     = (t ++ EKill 21 SIGTERM
          :: trace (Sys.for_each rest (Reloader.kill_subtree tree_world)),
        result (Sys.for_each rest (Reloader.kill_subtree tree_world)))) ∧
  (∀ root, result (Reloader.kill_process_children_unix tree_world root)
           ≠ Raise ProcessLookupError).
Proof.
  apply (dead_pid_is_absorbed tree_world "21" 21); reflexivity.
Defined.

(** C10. Only [ProcessLookupError] is absorbed.  A token that does not
    parse raises [ValueError] before any signal is sent, and an [os.kill]
    that fails with any other exception raises it; either way the exception
    leaves the loop it occurs in and [kill_process_children_unix] itself,
    with no signal sent to the pids that were still to come. *)
Theorem other_exceptions_propagate
    (w : world) (root : Z) (pre post : list string) (c : string)
    (t0 : list event) (e : exn) :
  isfile (fs w) (Reloader.children_path (PyStr.str root)) = true →
  direct_children w root = pre ++ c :: post →
  Sys.for_each pre (Reloader.kill_subtree w) = (t0, Return tt) →
  result (Reloader.kill_subtree w c) = Raise e →
  Reloader.kill_process_children_unix w root
    = (t0 ++ trace (Reloader.kill_subtree w c), Raise e) ∧
  e ≠ ProcessLookupError ∧
  (∃ tok, tok ∈ grandchildren w c ++ [c] ∧
     result (Reloader.try_kill w tok) = Raise e ∧
     ((PyStr.int tok = None ∧ e = ValueError tok) ∨
      (∃ n, PyStr.int tok = Some n ∧ os_kill w n = Some e))) ∧
  (∀ tok, PyStr.int tok = None →
     Reloader.try_kill w tok = ([], Raise (ValueError tok))) ∧
  (∀ tok n e', PyStr.int tok = Some n → os_kill w n = Some e' →
     e' ≠ ProcessLookupError →
     Reloader.try_kill w tok = ([EKill n SIGTERM], Raise e')) ∧
  (∀ tok rest e', result (Reloader.try_kill w tok) = Raise e' →
     Sys.for_each (tok :: rest) (Reloader.try_kill w)
     = (trace (Reloader.try_kill w tok), Raise e')) ∧
  (∀ gpre g gpost tg e',
     has_children_file w c = true →
     grandchildren w c = gpre ++ g :: gpost →
     Sys.for_each gpre (Reloader.try_kill w) = (tg, Return tt) →
     result (Reloader.try_kill w g) = Raise e' →
     Reloader.kill_subtree w c
     = (tg ++ trace (Reloader.try_kill w g), Raise e')).
Proof.
  intros Hroot Hsplit Hpre Hc.
  split; [|split; [|split; [|split; [|split; [|split]]]]].
  - rewrite kill_process_children_unix_unfold, Hroot, Hsplit, for_each_app.
    rewrite Hpre. simpl.
    destruct (Reloader.kill_subtree w c) as [tc rc]. simpl in *. by subst rc.
  - by apply kill_subtree_raise in Hc as [? _].
  - apply kill_subtree_raise in Hc as (_ & tok & Hin & Hr).
    exists tok. split; [done|]. split; [done|].
    by apply try_kill_raise in Hr as [_ ?].
  - intros tok Hn. pose proof (try_kill_cases w tok) as H. by rewrite Hn in H.
  - intros tok n e' Hn Hk Hne. pose proof (try_kill_cases w tok) as H.
    rewrite Hn, Hk in H. by destruct e'.
  - intros tok rest e' Hr. by apply for_each_raise.
  - intros gpre g gpost tg e' Hf Hg Hgpre Hr.
    rewrite kill_subtree_unfold, Hf, Hg, for_each_app, Hgpre. simpl.
    destruct (Reloader.try_kill w g) as [t r]. simpl in *. by subst r.
Qed.

Lemma other_exceptions_propagate_witness :
  Reloader.kill_process_children_unix refused_world 10
    = ([] ++ trace (Reloader.kill_subtree refused_world "11"), Raise PermissionError) ∧
  PermissionError ≠ ProcessLookupError ∧
  (∃ tok, tok ∈ grandchildren refused_world "11" ++ ["11"] ∧
     result (Reloader.try_kill refused_world tok) = Raise PermissionError ∧
     ((PyStr.int tok = None ∧ PermissionError = ValueError tok) ∨
      (∃ n, PyStr.int tok = Some n ∧ os_kill refused_world n = Some PermissionError))) ∧
  (∀ tok, PyStr.int tok = None →
     Reloader.try_kill refused_world tok = ([], Raise (ValueError tok))) ∧
  (∀ tok n e', PyStr.int tok = Some n → os_kill refused_world n = Some e' →
     e' ≠ ProcessLookupError →
     Reloader.try_kill refused_world tok = ([EKill n SIGTERM], Raise e')) ∧
  (∀ tok rest e', result (Reloader.try_kill refused_world tok) = Raise e' →
     Sys.for_each (tok :: rest) (Reloader.try_kill refused_world)
     = (trace (Reloader.try_kill refused_world tok), Raise e')) ∧
  (∀ gpre g gpost tg e',
     has_children_file refused_world "11" = true →
     grandchildren refused_world "11" = gpre ++ g :: gpost →
     Sys.for_each gpre (Reloader.try_kill refused_world) = (tg, Return tt) →
     result (Reloader.try_kill refused_world g) = Raise e' →
     Reloader.kill_subtree refused_world "11"
     = (tg ++ trace (Reloader.try_kill refused_world g), Raise e')).
Proof.
  apply (other_exceptions_propagate refused_world 10 [] ["12"] "11" []
           PermissionError); reflexivity.
Defined.

Example non_numeric_token :
  Reloader.kill_process_children_unix
    (proc_world [("10", "11 "); ("11", "21 x22 23 ")] (λ _, None)) 10
  = ([EKill 21 SIGTERM], Raise (ValueError "x22")).
Proof. vm_compute. reflexivity. Qed.

(** ** The relaunch command *)

Example module_world_args :
  Reloader._get_args_for_reloading module_world
  = ([], Return ["/usr/bin/python3"; "-m"; "myapp.__main__"; "--debug"]).
Proof. reflexivity. Qed.

Example script_world_args :
  Reloader._get_args_for_reloading (app_world 5)
  = ([], Return ["/usr/bin/python3"; "/app/server.py"; "--port"; "8000"]).
Proof. reflexivity. Qed.

(** C5. [_get_args_for_reloading] raises [RuntimeError] exactly when
    [sys.argv[0]] is [""] or ["-c"], and returns a command in every other
    case.  When it raises, [restart_with_reloader] raises before [Popen] is
    called, and [watchdog] ends at its first statement with no child
    started. *)
Theorem fatal_iff_argv0_placeholder (w : world) :
  (result (Reloader._get_args_for_reloading w) = Raise (RuntimeError (fatal_message w))
   ↔ argv0 w = "" ∨ argv0 w = "-c") ∧
  ((∃ e, result (Reloader._get_args_for_reloading w) = Raise e)
   ↔ argv0 w = "" ∨ argv0 w = "-c") ∧
  (¬ (argv0 w = "" ∨ argv0 w = "-c") →
   ∃ cmd, Reloader._get_args_for_reloading w = ([], Return cmd)) ∧
  (argv0 w = "" ∨ argv0 w = "-c" →
   ∀ spawn,
     Reloader.restart_with_reloader w spawn
       = ([], Raise (RuntimeError (fatal_message w))) ∧
     Watchdog.step w spawn Watchdog.init
       = Some ([], Watchdog.goto (Watchdog.Crashed (RuntimeError (fatal_message w)))
                     Watchdog.init) ∧
     ∀ w' spawn',
       Watchdog.step w' spawn'
         (Watchdog.goto (Watchdog.Crashed (RuntimeError (fatal_message w)))
            Watchdog.init) = None).
Proof.
  assert (argv0 w ∈ [""; "-c"] ↔ argv0 w = "" ∨ argv0 w = "-c") as Hin.
  { rewrite elem_of_cons, list_elem_of_singleton. done. }
  assert (Reloader._get_args_for_reloading w =
            if bool_decide (argv0 w ∈ [""; "-c"])
            then ([], Raise (RuntimeError (fatal_message w)))
            else ([], Return match main_spec w with
                             | Some name => [executable w; "-m"; name] ++ argv_rest w
                             | None => [executable w] ++ sys_argv w
                             end)) as Hget.
  { unfold Reloader._get_args_for_reloading. case_bool_decide; [done|].
    by destruct (main_spec w). }
  unfold Watchdog.step, Reloader.restart_with_reloader. rewrite Hget.
  case_bool_decide as Hargv; rewrite Hin in Hargv; simpl.
  - split; [done|]. split; [split; [done|eauto]|]. by split.
  - split; [done|]. split; [split; [by intros [e He]|done]|].
    split; [eauto|done].
Qed.

Lemma fatal_iff_argv0_placeholder_witness :
  Reloader.restart_with_reloader dash_c_world (Reloader.Spawned 100)
    = ([], Raise (RuntimeError "Autoreloader cannot work with argv[0]='-c'")) ∧
  (∃ cmd, Reloader._get_args_for_reloading module_world = ([], Return cmd)).
Proof.
  split.
  - apply (proj2 (proj2 (proj2 (fatal_iff_argv0_placeholder dash_c_world)))).
    right. reflexivity.
  - apply (proj1 (proj2 (proj2 (fatal_iff_argv0_placeholder module_world)))).
    intros [H|H]; discriminate H.
Defined.

(** C6, as amended.  When [sys.argv[0]] is neither [""] nor ["-c"]: with a
    module spec on [__main__] the command is the executable, ["-m"], the
    spec's name and [sys.argv[1:]]; without one it is the executable
    followed by all of [sys.argv]. *)
Theorem relaunch_command (w : world) :
  argv0 w ≠ "" → argv0 w ≠ "-c" →
  Reloader._get_args_for_reloading w =
    ([], Return match main_spec w with
                | Some name => [executable w; "-m"; name] ++ argv_rest w
                | None => [executable w] ++ sys_argv w
                end).
Proof.
  intros H1 H2. unfold Reloader._get_args_for_reloading.
  rewrite bool_decide_eq_false_2.
  - by destruct (main_spec w).
  - rewrite elem_of_cons, list_elem_of_singleton. by intros [?|?].
Qed.

Lemma relaunch_command_witness :
  Reloader._get_args_for_reloading module_world =
    ([], Return (["/usr/bin/python3"; "-m"; "myapp.__main__"] ++ ["--debug"])).
Proof.
  apply (relaunch_command module_world); discriminate.
Defined.

(** The claim as first stated fails under [python -c]: there is no module
    spec, yet nothing is returned. *)
Lemma dash_c_counterexample :
  main_spec dash_c_world = None ∧
  sys_argv dash_c_world = ["-c"] ∧
  Reloader._get_args_for_reloading dash_c_world
    = ([], Raise (RuntimeError "Autoreloader cannot work with argv[0]='-c'")) ∧
  Reloader._get_args_for_reloading dash_c_world
    ≠ ([], Return ([executable dash_c_world] ++ sys_argv dash_c_world)).
Proof. repeat split; discriminate. Qed.

(** ** Signals and the current child *)

Section Shutdown.
Import Reloader Watchdog.

Lemma last_launched_app tr t :
  last_launched (tr ++ t) =
    match last_launched t with
    | Some p => Some p
    | None => last_launched tr
    end.
Proof.
  induction tr as [|ev tr IH]; simpl.
  - by destruct (last_launched t).
  - rewrite IH. by destruct (last_launched t).
Qed.

Lemma last_launched_no_popen t :
  (∀ ev, ev ∈ t → is_popen ev = false) → last_launched t = None.
Proof.
  induction t as [|ev t IH]; intros H; simpl; [done|].
  rewrite IH by (intros; apply H; by right).
  specialize (H ev). destruct ev; try done. by discriminate H; [left].
Qed.

Lemma kill_process_children_osx_cases w p :
  kill_process_children_osx w p
  = ([EPkill (PyStr.str p)],
     match run_pkill w p with None => Return tt | Some e => Raise e end).
Proof. unfold kill_process_children_osx. by destruct (run_pkill w p). Qed.

Lemma kill_process_children_no_popen w p ev :
  ev ∈ trace (kill_process_children w p) → is_popen ev = false.
Proof.
  unfold kill_process_children. destruct (platform w).
  - rewrite kill_process_children_osx_cases.
    by intros ->%list_elem_of_singleton.
  - intros (tok & _ & Hev)%kill_process_children_unix_trace.
    unfold sigterm in Hev. destruct (PyStr.int tok).
    + by apply list_elem_of_singleton in Hev as ->.
    + by apply elem_of_nil in Hev.
  - by intros ?%elem_of_nil.
Qed.

(** The handler body ends the process or raises; it never returns. *)
Lemma kill_program_completely_cases w p :
  match result (kill_process_children w (pid p)) with
  | Return _ =>
      kill_program_completely w p
      = (trace (kill_process_children w (pid p)) ++ [ETerminate (pid p); EExit 0],
         Exit 0)
  | Raise e =>
      kill_program_completely w p
      = (trace (kill_process_children w (pid p)), Raise e)
  | Exit c =>
      kill_program_completely w p
      = (trace (kill_process_children w (pid p)), Exit c)
  end.
Proof.
  unfold kill_program_completely.
  by destruct (kill_process_children w (pid p)) as [t [[]|e|c]].
Qed.

Lemma kill_program_completely_no_popen w p ev :
  ev ∈ trace (kill_program_completely w p) → is_popen ev = false.
Proof.
  pose proof (kill_program_completely_cases w p) as H.
  pose proof (kill_process_children_no_popen w (pid p) ev) as Hk.
  destruct (result (kill_process_children w (pid p))); rewrite H; simpl;
    try done.
  intros [?|Hev]%elem_of_app; [by apply Hk|].
  apply elem_of_cons in Hev as [->|Hev]; [done|].
  by apply list_elem_of_singleton in Hev as ->.
Qed.

Lemma restart_with_reloader_cases w spawn :
  (∃ e, restart_with_reloader w spawn = ([], Raise e)) ∨
  (∃ args p, restart_with_reloader w spawn
             = ([EPopen args p], Return {| pid := p |})).
Proof.
  unfold restart_with_reloader, _get_args_for_reloading.
  case_bool_decide; simpl; [eauto|].
  destruct (main_spec w), spawn; simpl; eauto.
Qed.

Lemma step_invariant w spawn tr s t s' :
  invariant tr s → step w spawn s = Some (t, s') → invariant (tr ++ t) s'.
Proof.
  unfold invariant, step. intros Hinv Hstep.
  destruct s as [l mt wp h1 h2]. simpl in *.
  destruct l; simpl in *; try done.
  - (* line 133 *)
    destruct Hinv as (-> & -> & -> & Hlast).
    destruct (restart_with_reloader_cases w spawn) as [[e He]|(args & p & Hp)].
    + rewrite He in Hstep. by simplify_eq/=.
    + rewrite Hp in Hstep. simplify_eq/=.
      rewrite last_launched_app. simpl. eauto.
  - (* line 134 *)
    destruct Hinv as (Hp & _ & ->). simplify_eq/=. by rewrite app_nil_r.
  - (* line 137 *)
    destruct Hinv as (Hp & -> & _). simplify_eq/=. by rewrite app_nil_r.
  - (* lines 141-154 *)
    destruct (poll (fs w) mt (_iter_module_files w)) as [mt' nr].
    simplify_eq/=. by rewrite app_nil_r.
  - (* line 156 *)
    simplify_eq/=. rewrite app_nil_r. by destruct need_reload.
  - (* line 157 *)
    destruct Hinv as [(p & -> & Hlast) [-> ->]]. simpl in Hstep.
    pose proof (last_launched_no_popen _
                  (kill_process_children_no_popen w (pid p))) as Hnone.
    destruct (kill_process_children w (pid p)) as [tk [[]|e|c]];
      simplify_eq/=; try done.
    rewrite last_launched_app, Hnone. eauto.
  - (* line 158 *)
    destruct Hinv as [(p & -> & Hlast) [-> ->]]. simplify_eq/=.
    rewrite last_launched_app. simpl. eauto.
  - (* line 159, the call *)
    destruct Hinv as [(p & -> & Hlast) [-> ->]].
    destruct (restart_with_reloader_cases w spawn) as [[e He]|(args & q & Hq)].
    + rewrite He in Hstep. by simplify_eq/=.
    + rewrite Hq in Hstep. simplify_eq/=.
      rewrite last_launched_app. simpl. eauto.
  - (* line 159, the store *)
    destruct Hinv as ([p ->] & Hlast & -> & ->). simplify_eq/=.
    rewrite app_nil_r. eauto.
  - (* line 161 *)
    destruct Hinv as [(p & -> & Hlast) [-> ->]]. simplify_eq/=.
    rewrite last_launched_app. simpl. eauto.
Qed.

(** A delivery ends the run, unless the handler raised inside a [try]
    that catches its exception: then it has only made the descendant kills
    and the main flow is where it was. *)
Lemma deliver_cases w sig in_try s t s' :
  deliver w sig in_try s = Some (t, s') →
  live s = true ∧
  (live s' = false ∨
   (s' = s ∧ in_try = true ∧
    ∃ p e, worker_process s = Some p ∧ catches w (at_pc s) e = true ∧
           kill_program_completely w p = (t, Raise e) ∧
           t = trace (kill_process_children w (pid p)))).
Proof.
  unfold deliver, load_worker.
  destruct (live s) eqn:Hlive; simpl; [|done]. intros Hsig.
  split; [done|]. destruct (installed sig s).
  - destruct (worker_process s) as [p|] eqn:Hp; simpl in Hsig.
    2:{ assert (catches w (at_pc s) (OtherError "NameError") = false) as Hno
          by (unfold catches; by destruct (at_pc s), (platform w)).
        rewrite Hno, andb_false_r in Hsig. simplify_eq/=. by left. }
    pose proof (kill_program_completely_cases w p) as Hcases.
    destruct (result (kill_process_children w (pid p))) as [[]|e|c];
      rewrite Hcases in Hsig; simpl in Hsig.
    + simplify_eq/=. by left.
    + destruct in_try; simpl in Hsig; [|simplify_eq/=; by left].
      destruct (catches w (at_pc s) e) eqn:Hc; simplify_eq/=; [|by left].
      right. split; [done|]. split; [done|]. exists p, e. by rewrite Hcases.
    + simplify_eq/=. by left.
  - destruct sig; simplify_eq/=; by left.
Qed.

Lemma invariant_same_launched tr tr' s :
  last_launched tr' = last_launched tr → invariant tr s → invariant tr' s.
Proof. intros H. unfold invariant. by rewrite H. Qed.

Lemma final_invariant tr s : live s = false → invariant tr s.
Proof. unfold live, invariant. by destruct (at_pc s). Qed.

Lemma runs_invariant tr s : runs tr s → invariant tr s.
Proof.
  induction 1 as [|w spawn tr s t s' _ IH Hstep|w sig in_try tr s t s' _ IH Hsig].
  - done.
  - by eapply step_invariant.
  - apply deliver_cases in Hsig
      as (_ & [Hfinal|(Hs & _ & p & e & _ & _ & _ & Ht)]).
    + by apply final_invariant.
    + subst s' t. eapply invariant_same_launched; [|done].
      rewrite last_launched_app, last_launched_no_popen; [done|].
      apply kill_process_children_no_popen.
Qed.

Lemma runs_exec script tr s :
  runs tr s → runs (tr ++ (exec script s).1) (exec script s).2.
Proof.
  revert tr s. induction script as [|[w spawn] script IH]; intros tr s Hr; simpl.
  - by rewrite app_nil_r.
  - destruct (step w spawn s) as [[t s']|] eqn:Hstep; simpl.
    + specialize (IH (tr ++ t) s' (runs_step _ _ _ _ _ _ Hr Hstep)).
      destruct (exec script s') as [t' s'']. simpl in *.
      by rewrite app_assoc.
    + by rewrite app_nil_r.
Qed.

Lemma runs_watchdog script : runs (watchdog script).1 (watchdog script).2.
Proof. apply (runs_exec script [] init). constructor. Qed.

Lemma final_no_step w spawn s : live s = false → step w spawn s = None.
Proof. unfold live, step. by destruct (at_pc s). Qed.

Lemma final_no_signal w sig in_try s :
  live s = false → deliver w sig in_try s = None.
Proof. unfold deliver. by intros ->. Qed.

End Shutdown.

Example reload_script_trace :
  (Watchdog.watchdog reload_script).1
  = [EPopen ["/usr/bin/python3"; "/app/server.py"; "--port"; "8000"] 100;
     ESleep; ETerminate 100;
     EPopen ["/usr/bin/python3"; "/app/server.py"; "--port"; "8000"] 200].
Proof. vm_compute. reflexivity. Qed.

(** C3, as amended.  At every point of a run at which the handler for the
    signal is installed, that is for [SIGTERM] once line 134 has run and
    for [SIGINT] once line 137 has run, so for both anywhere in the loop of
    lines 140-161 and however many reloads came before, the signal runs
    [kill_program_completely] on the value the variable [worker_process]
    holds at that moment, which outside the store of line 159 is the child
    started last: [kill_process_children] runs on its pid first and, when
    that call returns, the child is terminated and the supervisor exits
    with status 0; the main flow makes no further step and takes no further
    signal.  When that call raises, the child is not terminated and the
    supervisor does not exit with 0: the exception leaves [watchdog], unless
    it surfaces under a [try] that catches it, and then the loop goes on. *)
Theorem signal_shutdown (tr : list event) (s : Watchdog.state) :
  Watchdog.runs tr s →
  (Watchdog.at_pc s = Watchdog.AtInstallSIGINT →
   Watchdog.live s = true ∧ Watchdog.installed SIGTERM s = true) ∧
  (Watchdog.in_loop (Watchdog.at_pc s) = true →
   Watchdog.live s = true ∧ ∀ sig, Watchdog.installed sig s = true) ∧
  (∀ sig w in_try,
     Watchdog.live s = true → Watchdog.installed sig s = true →
     ∃ p,
       Watchdog.worker_process s = Some p ∧
       ((∀ new, Watchdog.at_pc s ≠ Watchdog.AtAssign new) →
        Watchdog.last_launched tr = Some (Reloader.pid p)) ∧
       (∃ s', Watchdog.deliver w sig in_try s
              = Some (trace (Reloader.kill_program_completely w p), s')) ∧
       (∃ rest, trace (Reloader.kill_program_completely w p)
                = trace (Reloader.kill_process_children w (Reloader.pid p))
                    ++ rest) ∧
       (result (Reloader.kill_process_children w (Reloader.pid p)) = Return tt →
        Watchdog.deliver w sig in_try s
          = Some (trace (Reloader.kill_process_children w (Reloader.pid p))
                    ++ [ETerminate (Reloader.pid p); EExit 0],
                  Watchdog.goto (Watchdog.Exited 0) s) ∧
        ∀ w' spawn' sig' in_try',
          Watchdog.step w' spawn' (Watchdog.goto (Watchdog.Exited 0) s) = None ∧
          Watchdog.deliver w' sig' in_try' (Watchdog.goto (Watchdog.Exited 0) s)
            = None) ∧
       (∀ e,
          result (Reloader.kill_process_children w (Reloader.pid p)) = Raise e →
          Watchdog.deliver w sig in_try s
          = Some (trace (Reloader.kill_process_children w (Reloader.pid p)),
                  if in_try && Watchdog.catches w (Watchdog.at_pc s) e then s
                  else Watchdog.goto (Watchdog.Crashed e) s))).
Proof.
  intros Hruns. apply runs_invariant in Hruns.
  split; [|split].
  - intros Hpc. unfold invariant, Watchdog.live in *. rewrite Hpc in *.
    by destruct Hruns as (_ & ? & _).
  - intros Hloop. unfold invariant, Watchdog.live in *.
    destruct (Watchdog.at_pc s); try done;
      (split; [done|]); intros []; simpl; tauto.
  - intros sig w in_try Hlive Hinst.
    assert (∃ p, Watchdog.worker_process s = Some p ∧
              ((∀ new, Watchdog.at_pc s ≠ Watchdog.AtAssign new) →
               Watchdog.last_launched tr = Some (Reloader.pid p)))
      as (p & Hp & Hlast).
    { unfold invariant, Watchdog.live in *.
      destruct (Watchdog.at_pc s) eqn:Hpc; try done;
        try (destruct Hruns as [(p & ? & ?) _]; by exists p).
      - destruct Hruns as (_ & Hterm & Hint & _).
        destruct sig; simpl in Hinst; congruence.
      - destruct Hruns as ([p ?] & _). exists p. split; [done|].
        intros Hne. by destruct (Hne new). }
    pose proof (kill_program_completely_cases w p) as Hcases.
    assert (Watchdog.deliver w sig in_try s =
              Some match Reloader.kill_program_completely w p with
                   | (t, Return _) => (t, s)
                   | (t, Raise e) =>
                       (t, if in_try && Watchdog.catches w (Watchdog.at_pc s) e
                           then s else Watchdog.goto (Watchdog.Crashed e) s)
                   | (t, Exit c) => (t, Watchdog.goto (Watchdog.Exited c) s)
                   end) as Hdel.
    { unfold Watchdog.deliver, Watchdog.load_worker.
      rewrite Hlive, Hinst, Hp. simpl.
      by destruct (Reloader.kill_program_completely w p) as [t [[]|e|c]]. }
    exists p. split; [done|]. split; [done|]. split; [|split; [|split]].
    + rewrite Hdel.
      destruct (result (Reloader.kill_process_children w (Reloader.pid p)));
        rewrite Hcases; simpl; eauto.
    + destruct (result (Reloader.kill_process_children w (Reloader.pid p)));
        rewrite Hcases; simpl; eauto using app_nil_r.
    + intros Hret. rewrite Hret in Hcases. rewrite Hdel, Hcases. simpl.
      split; [done|]. intros w' spawn' sig' in_try'.
      split; [by apply final_no_step|by apply final_no_signal].
    + intros e Hraise. rewrite Hraise in Hcases. by rewrite Hdel, Hcases.
Qed.

Lemma signal_shutdown_witness :
  let s := (Watchdog.watchdog reload_script).2 in
  Watchdog.worker_process s = Some {| Reloader.pid := 200 |} ∧
  Watchdog.last_launched (Watchdog.watchdog reload_script).1 = Some 200 ∧
  ∀ in_try,
    Watchdog.deliver worker_tree_world SIGINT in_try s
    = Some ([EKill 201 SIGTERM; ETerminate 200; EExit 0],
            Watchdog.goto (Watchdog.Exited 0) s).
Proof.
  intros s.
  destruct (signal_shutdown (Watchdog.watchdog reload_script).1 s
              (runs_watchdog reload_script)) as (_ & Hloop & Hsig).
  destruct Hloop as [Hlive Hinst]; [vm_compute; reflexivity|].
  assert (Watchdog.worker_process s = Some {| Reloader.pid := 200 |}) as H200
    by (vm_compute; reflexivity).
  split; [done|]. split.
  - destruct (Hsig SIGINT worker_tree_world false Hlive (Hinst SIGINT))
      as (p & Hp & Hlast & _).
    rewrite H200 in Hp. injection Hp as <-.
    apply Hlast. intros new. vm_compute. discriminate.
  - intros in_try.
    destruct (Hsig SIGINT worker_tree_world in_try Hlive (Hinst SIGINT))
      as (p & Hp & _ & _ & _ & Hexit & _).
    rewrite H200 in Hp. injection Hp as <-.
    apply Hexit. vm_compute. reflexivity.
Defined.

(** [SIGTERM] is already handled between line 134 and line 137. *)
Example sigterm_before_sigint_handler :
  let s := (Watchdog.watchdog
              [(app_world 5, Reloader.Spawned 100); quiet (app_world 5)]).2 in
  Watchdog.at_pc s = Watchdog.AtInstallSIGINT ∧
  Watchdog.deliver (app_world 5) SIGTERM false s
  = Some ([ETerminate 100; EExit 0], Watchdog.goto (Watchdog.Exited 0) s) ∧
  Watchdog.deliver (app_world 5) SIGINT false s
  = Some ([], Watchdog.goto (Watchdog.Crashed KeyboardInterrupt) s).
Proof. vm_compute. done. Qed.

(** A handler that raises while the main flow is inside the [try] of lines
    144-147 is absorbed there and the loop goes on; outside a [try] the
    exception leaves [watchdog]. *)
Example raising_handler :
  let s := Watchdog.State Watchdog.AtPoll ∅ (Some {| Reloader.pid := 100 |})
             true true in
  Watchdog.deliver refused_reload_world SIGTERM true s
    = Some ([EKill 101 SIGTERM], s) ∧
  Watchdog.deliver refused_reload_world SIGTERM false s
    = Some ([EKill 101 SIGTERM],
            Watchdog.goto (Watchdog.Crashed PermissionError) s) ∧
  Watchdog.deliver refused_reload_world SIGTERM true (Watchdog.goto Watchdog.AtSleep s)
    = Some ([EKill 101 SIGTERM],
            Watchdog.goto (Watchdog.Crashed PermissionError) s).
Proof. vm_compute. done. Qed.

(** The claim as first stated fails between line 133 and line 134: the
    child is running, no handler is installed yet, and the signal takes its
    default course with the child left alone. *)
Lemma signal_before_handlers_counterexample :
  let s := (Watchdog.watchdog [(app_world 5, Reloader.Spawned 100)]).2 in
  Watchdog.runs
    [EPopen ["/usr/bin/python3"; "/app/server.py"; "--port"; "8000"] 100] s ∧
  Watchdog.worker_process s = Some {| Reloader.pid := 100 |} ∧
  (∀ in_try, Watchdog.deliver (app_world 5) SIGTERM in_try s
             = Some ([], Watchdog.goto (Watchdog.Killed SIGTERM) s)) ∧
  (∀ in_try, Watchdog.deliver (app_world 5) SIGINT in_try s
             = Some ([], Watchdog.goto (Watchdog.Crashed KeyboardInterrupt) s)) ∧
  (∀ sig in_try t s',
     Watchdog.deliver (app_world 5) sig in_try s = Some (t, s') →
     Watchdog.at_pc s' ≠ Watchdog.Exited 0 ∧ ETerminate 100 ∉ t).
Proof.
  intros s. split; [|split; [|split; [|split]]]; try reflexivity.
  - apply (runs_watchdog [(app_world 5, Reloader.Spawned 100)]).
  - intros [] in_try t s' [= <- <-]; (split; [discriminate|apply not_elem_of_nil]).
Qed.

(** * Further properties *)

(** ** What the enumeration yields *)

Section Yielded.
Import Reloader.

Lemma module_files_elem fs m p :
  p ∈ module_files fs m →
  ∃ filename f, m = Some (Module (Some filename)) ∧ filename ≠ "" ∧
    walk fs filename = Some f ∧ p = source_name f.
Proof.
  unfold module_files.
  destruct m as [[[filename|]]|]; simpl; try by intros ?%elem_of_nil.
  case_bool_decide as Hempty; [by intros ?%elem_of_nil|].
  destruct (walk fs filename) as [f|] eqn:Hw; [|by intros ?%elem_of_nil].
  intros ->%list_elem_of_singleton. by exists filename, f.
Qed.

Lemma module_files_length fs m : (length (module_files fs m) ≤ 1)%nat.
Proof.
  unfold module_files. destruct m as [[[filename|]]|]; simpl; try lia.
  case_bool_decide; simpl; [lia|]. destruct (walk fs filename); simpl; lia.
Qed.

Lemma iter_module_files_elem w p :
  p ∈ _iter_module_files w →
  ∃ filename f, Some (Module (Some filename)) ∈ sys_modules w ∧
    filename ≠ "" ∧ walk (fs w) filename = Some f ∧ p = source_name f.
Proof.
  unfold _iter_module_files. intros Hin.
  apply list_elem_of_bind in Hin as (m & Hp & Hm).
  apply module_files_elem in Hp as (filename & f & -> & ? & ? & ?).
  by exists filename, f.
Qed.

Lemma str_app_last_inj s1 s2 a b :
  s1 +:+ String a "" = s2 +:+ String b "" → a = b.
Proof.
  revert s2. induction s1 as [|c q IH]; intros [|d r]; rewrite ?str_app_cons.
  - by intros [= ->].
  - intros [= _ H]. by destruct r.
  - intros [= _ H]. by destruct q.
  - intros [= _ H]. by apply (IH r).
Qed.

Lemma last_n_suffix n s : ∃ stem, s = stem +:+ PyStr.last_n n s.
Proof.
  exists (PyStr.take (PyStr.len s - n) s). unfold PyStr.last_n.
  by rewrite str_take_drop.
Qed.

(** A name that ends in ["y"] carries neither compiled suffix. *)
Lemma source_suffix_py stem :
  PyStr.last_n 4 (stem +:+ ".py") ∉ [".pyc"; ".pyo"].
Proof.
  destruct (last_n_suffix 4 (stem +:+ ".py")) as [pre Hpre].
  intros [Hc|Ho%list_elem_of_singleton]%elem_of_cons.
  - rewrite Hc in Hpre.
    change (stem +:+ ".py") with (stem +:+ ".p" +:+ "y") in Hpre.
    change (pre +:+ ".pyc") with (pre +:+ ".py" +:+ "c") in Hpre.
    rewrite <- !str_app_assoc in Hpre.
    by apply str_app_last_inj in Hpre.
  - rewrite Ho in Hpre.
    change (stem +:+ ".py") with (stem +:+ ".p" +:+ "y") in Hpre.
    change (pre +:+ ".pyo") with (pre +:+ ".py" +:+ "o") in Hpre.
    rewrite <- !str_app_assoc in Hpre.
    by apply str_app_last_inj in Hpre.
Qed.

Lemma source_name_not_compiled f :
  PyStr.last_n 4 (source_name f) ∉ [".pyc"; ".pyo"].
Proof.
  destruct (decide (PyStr.last_n 4 f ∈ [".pyc"; ".pyo"])) as [Hin|Hout].
  - destruct (source_name_compiled f Hin) as (stem & _ & ->).
    apply source_suffix_py.
  - unfold source_name. by rewrite bool_decide_eq_false_2.
Qed.

Lemma rstrip_prefix c s : ∃ rest, s = PyStr.rstrip c s +:+ rest.
Proof.
  induction s as [|a q [rest IH]]; simpl; [by exists ""|].
  destruct (PyStr.rstrip c q) as [|b r] eqn:E.
  - destruct (Ascii.eqb a c).
    + by exists (String a q).
    + exists q. done.
  - exists rest. rewrite str_app_cons. by rewrite <- IH.
Qed.

Lemma dirname_prefix p : ∃ rest, p = PyStr.dirname p +:+ rest.
Proof.
  unfold PyStr.dirname.
  pose proof (str_take_drop (Z.to_nat (PyStr.rfind PyStr.sep p + 1)) p) as Hsplit.
  destruct (_ && _).
  - destruct (rstrip_prefix PyStr.sep
                (PyStr.take (Z.to_nat (PyStr.rfind PyStr.sep p + 1)) p))
      as [rest Hrest].
    exists (rest +:+ PyStr.drop (Z.to_nat (PyStr.rfind PyStr.sep p + 1)) p).
    rewrite <- str_app_assoc, <- Hrest. by rewrite Hsplit.
  - eauto.
Qed.

Lemma walk_prefix fs filename f :
  walk fs filename = Some f → ∃ rest, filename = f +:+ rest.
Proof.
  funelim (walk fs filename).
  - intros [= <-]. exists "". clear. induction filename; [done|].
    by rewrite str_app_cons, <- IHfilename.
  - done.
  - intros Hw. destruct (H _ Hw) as [rest Hrest].
    destruct (dirname_prefix filename) as [rest' Hrest'].
    exists (rest +:+ rest'). by rewrite <- str_app_assoc, <- Hrest.
Qed.

End Yielded.

Example modules_world_files :
  Reloader._iter_module_files modules_world
  = ["/app/a.py"; "/app/a.py"; "/app/__pycache__/b.py"; "/lib/pkg.zip"].
Proof. reflexivity. Qed.

(** X1. The enumeration yields at most one path per entry of
    [sys.modules], and every path it yields comes from an entry with a
    non-empty [__file__]: it is the first existing regular file among that
    name and its successive [dirname]s, after suffix normalisation. *)
Theorem enumerated_paths_are_found_files (w : world) :
  (length (Reloader._iter_module_files w) ≤ length (sys_modules w))%nat ∧
  ∀ p, p ∈ Reloader._iter_module_files w →
    ∃ filename n,
      Some (Module (Some filename)) ∈ sys_modules w ∧ filename ≠ "" ∧
      (n ≤ PyStr.len filename)%nat ∧
      isfile (fs w) (Reloader.ancestor n filename) = true ∧
      (∀ k, (k < n)%nat → isfile (fs w) (Reloader.ancestor k filename) = false) ∧
      p = Reloader.source_name (Reloader.ancestor n filename).
Proof.
  split.
  - unfold Reloader._iter_module_files.
    induction (sys_modules w) as [|m ms IH]; [done|].
    rewrite bind_cons, length_app. simpl.
    pose proof (module_files_length (fs w) m). lia.
  - intros p (filename & f & Hm & Hne & Hw & ->)%iter_module_files_elem.
    destruct (walk_stops (fs w) filename)
      as (n & Hn & Hbefore & [[Hf Hw']|(_ & _ & Hw')]); rewrite Hw' in Hw;
      [|done].
    injection Hw as <-. by exists filename, n.
Qed.

Lemma enumerated_paths_are_found_files_witness :
  ∃ filename n,
    Some (Module (Some filename)) ∈ sys_modules modules_world ∧ filename ≠ "" ∧
    (n ≤ PyStr.len filename)%nat ∧
    isfile (fs modules_world) (Reloader.ancestor n filename) = true ∧
    (∀ k, (k < n)%nat →
          isfile (fs modules_world) (Reloader.ancestor k filename) = false) ∧
    "/lib/pkg.zip" = Reloader.source_name (Reloader.ancestor n filename).
Proof.
  apply (proj2 (enumerated_paths_are_found_files modules_world)).
  vm_compute. do 3 right. left.
Defined.

(** X2. A module whose [__file__] is a non-empty path of an existing
    regular file is always enumerated: under its own name, or under the
    [".py"] name when it ends in [".pyc"] or [".pyo"]. *)
Theorem existing_module_file_is_enumerated (w : world) (m : module) (f : string) :
  Some m ∈ sys_modules w →
  file_attr m = Some f →
  f ≠ "" →
  isfile (fs w) f = true →
  Reloader.source_name f ∈ Reloader._iter_module_files w ∧
  (PyStr.last_n 4 f ∉ [".pyc"; ".pyo"] → f ∈ Reloader._iter_module_files w).
Proof.
  intros Hm Hfile Hne Hf.
  assert (Reloader.source_name f ∈ Reloader._iter_module_files w) as Hin.
  { unfold Reloader._iter_module_files. apply list_elem_of_bind.
    exists (Some m). split; [|done].
    unfold Reloader.module_files. rewrite Hfile.
    rewrite bool_decide_eq_false_2 by done.
    rewrite walk_step, Hf. left. }
  split; [done|]. intros Hsuf.
  unfold Reloader.source_name in Hin. by rewrite bool_decide_eq_false_2 in Hin.
Qed.

Lemma existing_module_file_is_enumerated_witness :
  Reloader.source_name "/app/__pycache__/b.pyc"
    ∈ Reloader._iter_module_files modules_world ∧
  (PyStr.last_n 4 "/app/__pycache__/b.pyc" ∉ [".pyc"; ".pyo"] →
   "/app/__pycache__/b.pyc" ∈ Reloader._iter_module_files modules_world).
Proof.
  apply (existing_module_file_is_enumerated modules_world
           (Module (Some "/app/__pycache__/b.pyc"))).
  - vm_compute. do 3 right. left.
  - reflexivity.
  - discriminate.
  - reflexivity.
Defined.

(** X3. No enumerated path ends in [".pyc"] or [".pyo"]: the watch table
    is keyed by source names only. *)
Theorem enumerated_paths_are_not_bytecode (w : world) (p : string) :
  p ∈ Reloader._iter_module_files w →
  PyStr.last_n 4 p ∉ [".pyc"; ".pyo"].
Proof.
  intros (filename & f & _ & _ & _ & ->)%iter_module_files_elem.
  apply source_name_not_compiled.
Qed.

Lemma enumerated_paths_are_not_bytecode_witness :
  PyStr.last_n 4 "/app/__pycache__/b.py" ∉ [".pyc"; ".pyo"].
Proof.
  apply (enumerated_paths_are_not_bytecode modules_world).
  vm_compute. do 2 right. left.
Defined.

(** X4. Every enumerated path lies on the path of a loaded module: some
    module's [__file__] starts with it, or with it followed by the ["c"] or
    ["o"] that normalisation removed. *)
Theorem enumerated_paths_lie_on_module_paths (w : world) (p : string) :
  p ∈ Reloader._iter_module_files w →
  ∃ filename rest,
    Some (Module (Some filename)) ∈ sys_modules w ∧
    (filename = p +:+ rest ∨ filename = p +:+ "c" +:+ rest ∨
     filename = p +:+ "o" +:+ rest).
Proof.
  intros (filename & f & Hm & _ & Hw & ->)%iter_module_files_elem.
  apply walk_prefix in Hw as [rest ->].
  exists (f +:+ rest), rest. split; [done|].
  destruct (decide (PyStr.last_n 4 f ∈ [".pyc"; ".pyo"])) as [Hin|Hout].
  - destruct (source_name_compiled f Hin) as (stem & [->| ->] & ->).
    + right. left.
      change (stem +:+ ".pyc") with (stem +:+ ".py" +:+ "c").
      by rewrite <- !str_app_assoc.
    + right. right.
      change (stem +:+ ".pyo") with (stem +:+ ".py" +:+ "o").
      by rewrite <- !str_app_assoc.
  - left. unfold Reloader.source_name. by rewrite bool_decide_eq_false_2.
Qed.

Lemma enumerated_paths_lie_on_module_paths_witness :
  ∃ filename rest,
    Some (Module (Some filename)) ∈ sys_modules modules_world ∧
    (filename = "/lib/pkg.zip" +:+ rest ∨ filename = "/lib/pkg.zip" +:+ "c" +:+ rest ∨
     filename = "/lib/pkg.zip" +:+ "o" +:+ rest).
Proof.
  apply (enumerated_paths_lie_on_module_paths modules_world).
  vm_compute. do 3 right. left.
Defined.

(** ** The watch table over passes *)

Section Table.
Import Reloader.
Variable fs : filesystem.

Lemma recorded_ge mtimes p v :
  mtimes !! p = Some v → ∃ v', recorded fs mtimes p = Some v' ∧ v ≤ v'.
Proof.
  intros Hv. unfold recorded. rewrite Hv.
  destruct (stat_mtime fs p) as [m|]; [|by exists v].
  exists (Z.max v m). split; [done|lia].
Qed.

Lemma poll_table_ge mtimes files p v :
  mtimes !! p = Some v →
  ∃ v', (poll fs mtimes files).1 !! p = Some v' ∧ v ≤ v'.
Proof.
  intros Hv. rewrite poll_lookup. case_bool_decide.
  - by apply recorded_ge.
  - by exists v.
Qed.

(** After a pass nothing enumerated is newer than its record. *)
Lemma increased_after_poll mtimes files p :
  p ∈ files → increased fs (poll fs mtimes files).1 p = false.
Proof.
  intros Hin. unfold increased.
  rewrite poll_lookup, bool_decide_eq_true_2 by done. unfold recorded.
  destruct (stat_mtime fs p) as [m|]; [|done].
  destruct (mtimes !! p) as [old|]; apply bool_decide_eq_false_2; lia.
Qed.

Lemma recorded_after_poll mtimes files p :
  p ∈ files →
  recorded fs (poll fs mtimes files).1 p = (poll fs mtimes files).1 !! p.
Proof.
  intros Hin. unfold recorded at 1.
  rewrite poll_lookup, bool_decide_eq_true_2 by done. unfold recorded.
  destruct (stat_mtime fs p) as [m|]; [|done].
  destruct (mtimes !! p) as [old|]; f_equal; lia.
Qed.

Lemma foldl_observe_unreadable st files :
  foldl (observe fs) st files
  = foldl (observe fs) st (filter (statable fs) files).
Proof.
  revert st. induction files as [|p files IH]; intros st; [done|].
  rewrite filter_cons. simpl. case_decide as Hp.
  - simpl. apply IH.
  - rewrite <- IH. f_equal. unfold observe.
    destruct (stat_mtime fs p) eqn:Hs; [|done].
    destruct Hp. unfold statable. by rewrite Hs.
Qed.

End Table.

(** X5. A second pass over the same snapshot finds nothing: it sets no
    [need_reload] and leaves the table as the first pass made it, so one
    change of a file asks for one reload. *)
Theorem second_pass_is_quiet
    (fs : filesystem) (mtimes0 : gmap string Z) (files : list string) :
  Reloader.poll fs (Reloader.poll fs mtimes0 files).1 files
  = ((Reloader.poll fs mtimes0 files).1, false).
Proof.
  rewrite (surjective_pairing (Reloader.poll fs _ files)). f_equal.
  - apply map_eq. intros q. rewrite (poll_lookup fs (Reloader.poll fs mtimes0 files).1).
    case_bool_decide; [by apply recorded_after_poll|done].
  - rewrite poll_need_reload. apply not_true_is_false.
    intros (p & Hin%list_elem_of_In & Hinc)%existsb_exists.
    by rewrite increased_after_poll in Hinc.
Qed.

(** X6. A pass depends on which paths are enumerated, not on their order
    or on how often each one is yielded. *)
Theorem pass_ignores_order_and_repeats
    (fs : filesystem) (mtimes0 : gmap string Z) (files files' : list string) :
  (∀ p, p ∈ files ↔ p ∈ files') →
  Reloader.poll fs mtimes0 files = Reloader.poll fs mtimes0 files'.
Proof.
  intros Hsame.
  rewrite (surjective_pairing (Reloader.poll fs mtimes0 files)),
          (surjective_pairing (Reloader.poll fs mtimes0 files')).
  f_equal.
  - apply map_eq. intros q. rewrite !poll_lookup.
    by rewrite (bool_decide_ext _ _ (Hsame q)).
  - apply eq_true_iff_eq. rewrite !poll_need_reload_iff.
    split; intros (p & old & m & Hin & ?); exists p, old, m;
      (split; [by apply Hsame|done]).
Qed.

Lemma pass_ignores_order_and_repeats_witness :
  Reloader.poll (fs modules_world) {["/lib/pkg.zip" := 8]}
    ["/app/a.py"; "/lib/pkg.zip"; "/app/a.py"]
  = Reloader.poll (fs modules_world) {["/lib/pkg.zip" := 8]}
      ["/lib/pkg.zip"; "/app/a.py"].
Proof.
  apply (pass_ignores_order_and_repeats (fs modules_world)).
  intros p. rewrite !elem_of_cons, !elem_of_nil. tauto.
Defined.

(** X7. A pass adds a table entry exactly for the enumerated paths that
    [os.stat] can read, and a path it cannot read is passed over: the pass
    is the one over the readable paths alone and the entry of an unreadable
    path, if any, stays as it was. *)
Theorem pass_adds_readable_paths_only
    (fs : filesystem) (mtimes0 : gmap string Z) (files : list string) :
  Reloader.poll fs mtimes0 files
    = Reloader.poll fs mtimes0 (filter (statable fs) files) ∧
  (∀ p, (Reloader.poll fs mtimes0 files).1 !! p = None ↔
        mtimes0 !! p = None ∧ (p ∉ files ∨ stat_mtime fs p = None)) ∧
  (∀ p, stat_mtime fs p = None →
        (Reloader.poll fs mtimes0 files).1 !! p = mtimes0 !! p).
Proof.
  split; [apply foldl_observe_unreadable|]. split.
  - intros p. rewrite poll_lookup. unfold recorded.
    case_bool_decide as Hin.
    + destruct (stat_mtime fs p) as [m|]; destruct (mtimes0 !! p);
        split; try done; try (intros [? [?|?]]; done); eauto.
    + split; [eauto|by intros [? _]].
  - intros p Hs. rewrite poll_lookup. unfold recorded. rewrite Hs.
    by case_bool_decide.
Qed.

Lemma watchdog_step_table_ge w spawn s t s' p v :
  Watchdog.step w spawn s = Some (t, s') →
  Watchdog.mtimes s !! p = Some v →
  ∃ v', Watchdog.mtimes s' !! p = Some v' ∧ v ≤ v'.
Proof.
  unfold Watchdog.step, Watchdog.continue_with. intros Hstep Hv.
  destruct s as [l mt wp h1 h2]. simpl in *.
  destruct l; simpl in *; try done;
    try (repeat case_match; simplify_eq/=; by exists v).
  pose proof (poll_table_ge (fs w) mt (Reloader._iter_module_files w) p v Hv)
    as Hge.
  destruct (Reloader.poll (fs w) mt (Reloader._iter_module_files w)).
  by simplify_eq/=.
Qed.

(** X8. No statement of [watchdog] removes a table entry or lowers a
    recorded time, and a signal leaves the table alone: once a path is on
    record it stays on record with a time that only grows. *)
Theorem table_never_shrinks
    (script : list (world * Reloader.spawn_result)) (s : Watchdog.state)
    (p : string) (v : Z) :
  Watchdog.mtimes s !! p = Some v →
  (∃ v', Watchdog.mtimes (Watchdog.exec script s).2 !! p = Some v' ∧ v ≤ v') ∧
  (∀ w sig in_try t s', Watchdog.deliver w sig in_try s = Some (t, s') →
                        Watchdog.mtimes s' = Watchdog.mtimes s).
Proof.
  intros Hv. split.
  - revert s v Hv. induction script as [|[w spawn] script IH]; intros s v Hv.
    + by exists v.
    + simpl. destruct (Watchdog.step w spawn s) as [[t s']|] eqn:Hstep.
      * destruct (watchdog_step_table_ge _ _ _ _ _ _ _ Hstep Hv)
          as (v1 & Hv1 & Hle1).
        destruct (IH s' v1 Hv1) as (v2 & Hv2 & Hle2).
        destruct (Watchdog.exec script s') as [t' s'']. simpl in *.
        exists v2. split; [done|lia].
      * by exists v.
  - intros w sig in_try t s'. unfold Watchdog.deliver.
    repeat case_match; intros; by simplify_eq/=.
Qed.

Lemma table_never_shrinks_witness :
  let s := Watchdog.State Watchdog.AtPoll {["/app/server.py" := 5]}
             (Some {| Reloader.pid := 100 |}) true true in
  (∃ v', Watchdog.mtimes (Watchdog.exec [quiet (app_world 3)] s).2
         !! "/app/server.py" = Some v' ∧ 5 ≤ v') ∧
  (∀ w sig in_try t s', Watchdog.deliver w sig in_try s = Some (t, s') →
                        Watchdog.mtimes s' = Watchdog.mtimes s).
Proof.
  intros s.
  apply (table_never_shrinks [quiet (app_world 3)] s "/app/server.py" 5).
  reflexivity.
Defined.

(** ** The order and the kind of the signals *)

Section Loops.
Context {A : Type} (body : A → M unit) (tr : A → list event).

(** A loop whose bodies each do a prefix of their full work, and all of it
    when they return, does a prefix of the whole work, and all of it when
    it returns. *)
Lemma for_each_prefix l :
  (∀ x, trace (body x) `prefix_of` tr x) →
  (∀ x, result (body x) = Return tt → trace (body x) = tr x) →
  trace (for_each l body) `prefix_of` (l ≫= tr) ∧
  (result (for_each l body) = Return tt → trace (for_each l body) = l ≫= tr).
Proof.
  intros Hpre Hall. induction l as [|x l [IHpre IHall]]; [done|].
  rewrite bind_cons. specialize (Hpre x). specialize (Hall x). simpl.
  destruct (body x) as [t [[]|e|c]]; simpl in *.
  - rewrite Hall by done.
    destruct (for_each l body) as [t' r']. simpl in *.
    split; [by apply prefix_app|]. intros Hr. by rewrite IHall.
  - split; [by apply prefix_app_r|done].
  - split; [by apply prefix_app_r|done].
Qed.

Lemma for_each_result_exit l c :
  result (for_each l body) = Exit c → ∃ x, x ∈ l ∧ result (body x) = Exit c.
Proof.
  induction l as [|x l IH]; simpl; [done|].
  destruct (body x) as [t [[]|e|c']] eqn:Hx; simpl.
  - destruct (for_each l body) as [t' r'] eqn:Hl. simpl in *.
    intros Hr. destruct (IH Hr) as (y & ? & ?).
    exists y. split; [by right|done].
  - done.
  - intros [= ->]. exists x. split; [left|by rewrite Hx].
Qed.

End Loops.

Section Signals.
Import Reloader.
Variable w : world.

Lemma try_kill_prefix tok :
  trace (try_kill w tok) `prefix_of` sigterm tok ∧
  (result (try_kill w tok) = Return tt → trace (try_kill w tok) = sigterm tok) ∧
  (∀ c, result (try_kill w tok) ≠ Exit c).
Proof.
  pose proof (try_kill_cases w tok) as H. unfold sigterm.
  destruct (PyStr.int tok) as [n|]; [|by rewrite H].
  by destruct (os_kill w n) as [[]|]; rewrite H.
Qed.

Lemma kill_subtree_prefix c :
  trace (kill_subtree w c) `prefix_of` subtree_signals w c ∧
  (result (kill_subtree w c) = Return tt →
   trace (kill_subtree w c) = subtree_signals w c) ∧
  (∀ x, result (kill_subtree w c) ≠ Exit x).
Proof.
  rewrite kill_subtree_unfold. unfold subtree_signals.
  destruct (has_children_file w c); [|done].
  destruct (for_each_prefix (try_kill w) sigterm (grandchildren w c))
    as [Hpre Hall].
  { intros tok. apply try_kill_prefix. }
  { intros tok. apply try_kill_prefix. }
  pose proof (for_each_result_exit (try_kill w) (grandchildren w c)) as Hexit.
  destruct (try_kill_prefix c) as (Hcpre & Hcall & Hcexit).
  destruct (for_each (grandchildren w c) (try_kill w)) as [t [[]|e|x]];
    simpl in *.
  - rewrite Hall by done.
    destruct (try_kill w c) as [tc rc]. simpl in *.
    split; [by apply prefix_app|]. split; [|done].
    intros ->. by rewrite Hcall.
  - split; [by apply prefix_app_r|done].
  - destruct (Hexit x eq_refl) as (tok & _ & Htok).
    by destruct (try_kill_prefix tok) as (_ & _ & Hno); destruct (Hno x).
Qed.

Lemma kill_process_children_unix_no_exit root c :
  result (kill_process_children_unix w root) ≠ Exit c.
Proof.
  rewrite kill_process_children_unix_unfold.
  destruct (isfile (fs w) _); [|done].
  intros (x & _ & Hx)%for_each_result_exit.
  by destruct (kill_subtree_prefix x) as (_ & _ & Hno); destruct (Hno c).
Qed.

Lemma kill_process_children_events p ev :
  ev ∈ trace (kill_process_children w p) →
  (∃ n, ev = EKill n SIGTERM) ∨ ev = EPkill (PyStr.str p).
Proof.
  unfold kill_process_children. destruct (platform w).
  - rewrite kill_process_children_osx_cases.
    intros ->%list_elem_of_singleton. by right.
  - intros (tok & _ & Hev)%kill_process_children_unix_trace.
    unfold sigterm in Hev. destruct (PyStr.int tok) as [n|].
    + apply list_elem_of_singleton in Hev as ->. left. by exists n.
    + by apply elem_of_nil in Hev.
  - by intros ?%elem_of_nil.
Qed.

Lemma kill_process_children_no_exit p c :
  result (kill_process_children w p) ≠ Exit c.
Proof.
  unfold kill_process_children. destruct (platform w); try done.
  - rewrite kill_process_children_osx_cases. by destruct (run_pkill w p).
  - apply kill_process_children_unix_no_exit.
Qed.

End Signals.

(** X9. Whatever the outcome, the signals [kill_process_children_unix]
    sends are an initial part of the full depth-two sequence (for each
    direct child with a readable list, its children in listed order and
    then the child itself): an exception only cuts the sequence short, and
    a normal return means all of it was sent. *)
Theorem signals_follow_listing_order (w : world) (root : Z) :
  (trace (Reloader.kill_process_children_unix w root))
    `prefix_of` (direct_children w root ≫= subtree_signals w) ∧
  (result (Reloader.kill_process_children_unix w root) = Return tt →
   trace (Reloader.kill_process_children_unix w root)
   = direct_children w root ≫= subtree_signals w).
Proof.
  rewrite kill_process_children_unix_unfold.
  destruct (isfile (fs w) _) eqn:Hf.
  - apply for_each_prefix; intros c; apply kill_subtree_prefix.
  - rewrite direct_children_no_file by done. done.
Qed.

(** X10. On every platform [kill_process_children] only asks for
    termination: each action is an [os.kill] with [SIGTERM] or the one
    [pkill -P pid]; it starts no process, calls no [terminate()] and does
    not end the supervisor.  Off Linux it calls no [os.kill].  On Darwin
    it runs [pkill -P pid] once, returns when [subprocess.run] returns and
    raises what [subprocess.run] raises (a [FileNotFoundError] when
    [pkill] cannot be started).  On a platform that is neither Linux nor
    Darwin it does nothing and returns. *)
Theorem kill_process_children_only_signals (w : world) (p : Z) :
  (∀ ev, ev ∈ trace (Reloader.kill_process_children w p) →
         (∃ n, ev = EKill n SIGTERM) ∨ ev = EPkill (PyStr.str p)) ∧
  (∀ c, result (Reloader.kill_process_children w p) ≠ Exit c) ∧
  (platform w ≠ Linux →
   ∀ n sig, EKill n sig ∉ trace (Reloader.kill_process_children w p)) ∧
  (platform w = Darwin →
   trace (Reloader.kill_process_children w p) = [EPkill (PyStr.str p)] ∧
   (result (Reloader.kill_process_children w p) = Return tt ↔
    run_pkill w p = None) ∧
   (∀ e, result (Reloader.kill_process_children w p) = Raise e ↔
         run_pkill w p = Some e)) ∧
  (∀ name, platform w = OtherPlatform name →
           Reloader.kill_process_children w p = ([], Return tt)).
Proof.
  split; [apply kill_process_children_events|].
  split; [apply kill_process_children_no_exit|].
  unfold Reloader.kill_process_children. split; [|split].
  - intros Hne. destruct (platform w); try done.
    + rewrite kill_process_children_osx_cases. intros n sig Hin.
      by apply list_elem_of_singleton in Hin.
    + intros n sig. apply not_elem_of_nil.
  - intros ->. rewrite kill_process_children_osx_cases. simpl.
    split; [done|]. destruct (run_pkill w p); simpl.
    + split; [done|]. intros e'. split; congruence.
    + split; [done|]. intros e'. split; congruence.
  - by intros name ->.
Qed.

Example pkill_missing :
  let w := World empty_fs (λ _, None) Darwin [] "/usr/bin/python3"
                 "/app/server.py" [] None (λ _, Some FileNotFoundError) in
  Reloader.kill_process_children w 100 = ([EPkill "100"], Raise FileNotFoundError)
  ∧ Reloader.kill_program_completely w {| Reloader.pid := 100 |}
    = ([EPkill "100"], Raise FileNotFoundError).
Proof. done. Qed.

(** X11. [kill_program_completely] never returns.  It ends the supervisor
    with status 0, after terminating [proc], exactly when the descendant
    kill returned; when that kill raises, the same exception leaves
    [kill_program_completely] with [proc] not terminated and the
    supervisor still running. *)
Theorem kill_program_completely_outcomes (w : world) (proc : Reloader.Popen) :
  (∀ a, result (Reloader.kill_program_completely w proc) ≠ Return a) ∧
  (∀ c, result (Reloader.kill_program_completely w proc) = Exit c →
        c = 0 ∧
        Reloader.kill_program_completely w proc
        = (trace (Reloader.kill_process_children w (Reloader.pid proc))
             ++ [ETerminate (Reloader.pid proc); EExit 0], Exit 0)) ∧
  (result (Reloader.kill_program_completely w proc) = Exit 0 ↔
   result (Reloader.kill_process_children w (Reloader.pid proc)) = Return tt) ∧
  (∀ e, result (Reloader.kill_program_completely w proc) = Raise e ↔
        result (Reloader.kill_process_children w (Reloader.pid proc)) = Raise e) ∧
  (∀ e, result (Reloader.kill_program_completely w proc) = Raise e →
        ∀ q c, (ETerminate q ∉ trace (Reloader.kill_program_completely w proc)) ∧
               (EExit c ∉ trace (Reloader.kill_program_completely w proc))).
Proof.
  pose proof (kill_program_completely_cases w proc) as Hcases.
  pose proof (kill_process_children_no_exit w (Reloader.pid proc)) as Hnoexit.
  pose proof (kill_process_children_events w (Reloader.pid proc)) as Hev.
  destruct (result (Reloader.kill_process_children w (Reloader.pid proc)))
    as [[]|e|c] eqn:Hres; rewrite Hcases; simpl.
  - split; [done|]. split; [by intros x [= <-]|]. by repeat split.
  - split; [done|]. split; [done|]. split; [done|].
    split; [done|]. intros e' _ q x.
    split; intros Hin; by destruct (Hev _ Hin) as [[n ?]|?].
  - by destruct (Hnoexit c).
Qed.

(** ** Runs of the supervisor *)

Section Runs.
Import Reloader Watchdog.

Lemma unterminated_app tr t :
  unterminated (tr ++ t) = foldl track (unterminated tr) t.
Proof. apply foldl_app. Qed.

Lemma track_signals started t :
  (∀ ev, ev ∈ t → (∃ n, ev = EKill n SIGTERM) ∨ ∃ a, ev = EPkill a) →
  foldl track started t = started.
Proof.
  revert started. induction t as [|ev t IH]; intros started H; [done|].
  simpl. rewrite IH by (intros; apply H; by right).
  by destruct (H ev) as [[n ->]|[a ->]]; [left|..].
Qed.

Lemma track_kill_process_children w p started :
  foldl track started (trace (kill_process_children w p)) = started.
Proof.
  apply track_signals. intros ev Hev.
  apply kill_process_children_events in Hev as [?|?]; eauto.
Qed.

Lemma last_launched_kill_process_children w p tr :
  last_launched (tr ++ trace (kill_process_children w p)) = last_launched tr.
Proof.
  rewrite last_launched_app, last_launched_no_popen; [done|].
  apply kill_process_children_no_popen.
Qed.

(** The handler's trace: the descendant kills, then perhaps [terminate]
    and the exit. *)
Lemma handler_trace w p :
  trace (kill_program_completely w p) = trace (kill_process_children w (pid p)) ∨
  trace (kill_program_completely w p)
  = trace (kill_process_children w (pid p)) ++ [ETerminate (pid p); EExit 0].
Proof.
  pose proof (kill_program_completely_cases w p) as H.
  destruct (result (kill_process_children w (pid p))); rewrite H; eauto.
Qed.

Lemma deliver_trace w sig in_try s t s' :
  deliver w sig in_try s = Some (t, s') →
  t = [] ∨ ∃ p, worker_process s = Some p ∧ t = trace (kill_program_completely w p).
Proof.
  unfold deliver, load_worker. destruct (live s); simpl; [|done].
  destruct (installed sig s).
  - destruct (worker_process s) as [p|]; simpl; [|intros [= <- _]; by left].
    destruct (kill_program_completely w p) as [tk [[]|e|c]] eqn:Hk; simpl;
      intros [= <- _]; right; exists p; by rewrite Hk.
  - destruct sig; intros [= <- _]; by left.
Qed.

Lemma step_not_exited w spawn s t s' c :
  step w spawn s = Some (t, s') → at_pc s' ≠ Exited c.
Proof.
  unfold step, load_worker, terminate. intros Hstep.
  destruct s as [l mt wp h1 h2]. simpl in *.
  destruct l; simpl in *; try done; try by simplify_eq/=.
  - destruct (restart_with_reloader_cases w spawn) as [[e He]|(a & p & Hp)];
      [rewrite He in Hstep|rewrite Hp in Hstep]; by simplify_eq/=.
  - destruct (poll (fs w) mt (_iter_module_files w)). by simplify_eq/=.
  - simplify_eq/=. by destruct need_reload.
  - destruct wp as [p|]; simpl in *; [|by simplify_eq/=].
    pose proof (kill_process_children_no_exit w (pid p)) as Hno.
    destruct (kill_process_children w (pid p)) as [tk [[]|e|x]];
      simplify_eq/=; try done. by destruct (Hno x).
  - destruct wp as [p|]; by simplify_eq/=.
  - destruct (restart_with_reloader_cases w spawn) as [[e He]|(a & p & Hp)];
      [rewrite He in Hstep|rewrite Hp in Hstep]; by simplify_eq/=.
Qed.

Lemma get_args_same_invocation w w' :
  same_invocation w w' →
  _get_args_for_reloading w = _get_args_for_reloading w'.
Proof.
  intros (He & H0 & Hr & Hs). unfold _get_args_for_reloading, sys_argv.
  by rewrite He, H0, Hr, Hs.
Qed.

Lemma step_popen_args w w0 spawn s t s' args ev :
  same_invocation w w0 →
  _get_args_for_reloading w0 = ([], Return args) →
  step w spawn s = Some (t, s') →
  ev ∈ t → is_popen ev = true → ∃ p, ev = EPopen args p.
Proof.
  intros Hsame Hargs Hstep Hev Hpopen.
  apply get_args_same_invocation in Hsame. rewrite Hargs in Hsame.
  unfold step, load_worker, terminate, restart_with_reloader in Hstep.
  rewrite Hsame in Hstep.
  destruct s as [l mt wp h1 h2]. simpl in *.
  destruct l; simpl in *; try done;
    try (simplify_eq/=; by apply elem_of_nil in Hev).
  - destruct spawn as [p|e]; simplify_eq/=.
    + apply list_elem_of_singleton in Hev as ->. by exists p.
    + by apply elem_of_nil in Hev.
  - destruct (poll (fs w) mt (_iter_module_files w)). simplify_eq/=.
    by apply elem_of_nil in Hev.
  - destruct wp as [p|]; simpl in *;
      [|simplify_eq/=; by apply elem_of_nil in Hev].
    pose proof (kill_process_children_no_popen w (pid p) ev) as Hno.
    destruct (kill_process_children w (pid p)) as [tk [[]|e|x]];
      simplify_eq/=; rewrite ?app_nil_r in Hev;
      by rewrite Hno in Hpopen.
  - destruct wp as [p|]; simplify_eq/=.
    + by apply list_elem_of_singleton in Hev as ->.
    + by apply elem_of_nil in Hev.
  - destruct spawn as [p|e]; simplify_eq/=.
    + apply list_elem_of_singleton in Hev as ->. by exists p.
    + by apply elem_of_nil in Hev.
  - simplify_eq/=. by apply list_elem_of_singleton in Hev as ->.
Qed.

Lemma one_child_at_most_last tr s :
  invariant tr s → one_child tr s → at_most_last tr.
Proof.
  unfold invariant, one_child, at_most_last.
  destruct (at_pc s); try done;
    try (intros [(p & Hp & Hlast) _] (p' & Hp' & ->);
         rewrite Hp in Hp'; injection Hp' as <-;
         split; [done|]; by intros q ->%list_elem_of_singleton);
    try (intros _ ->; split; [simpl; lia|by intros q ?%elem_of_nil]).
  intros (_ & Hlast & _) ->.
  split; [done|]. by intros q ->%list_elem_of_singleton.
Qed.

Lemma at_most_last_handler tr t w p :
  at_most_last tr →
  t = [] ∨ t = trace (kill_program_completely w p) →
  at_most_last (tr ++ t).
Proof.
  intros [Hlen Hlast] [->| ->]; [by rewrite app_nil_r|].
  assert (last_launched (tr ++ trace (kill_program_completely w p))
          = last_launched tr) as Hsame.
  { rewrite last_launched_app, last_launched_no_popen; [done|].
    apply kill_program_completely_no_popen. }
  unfold at_most_last. rewrite Hsame, unterminated_app.
  destruct (handler_trace w p) as [->| ->].
  - by rewrite track_kill_process_children.
  - rewrite foldl_app, track_kill_process_children. simpl.
    split.
    + etrans; [apply length_filter|done].
    + intros q [_ Hq]%list_elem_of_filter. by apply Hlast.
Qed.

End Runs.

Section RunInvariants.
Import Reloader Watchdog.

Lemma step_one_child w spawn tr s t s' :
  invariant tr s → one_child tr s →
  step w spawn s = Some (t, s') → one_child (tr ++ t) s'.
Proof.
  intros Hinv Hone Hstep.
  pose proof (one_child_at_most_last tr s Hinv Hone) as Hlast.
  unfold invariant, one_child, step, load_worker, terminate in *.
  destruct s as [l mt wp h1 h2]. simpl in *.
  destruct l; simpl in *; try done.
  - (* line 133 *)
    destruct (restart_with_reloader_cases w spawn) as [[e He]|(a & p & Hp)];
      [rewrite He in Hstep|rewrite Hp in Hstep]; simplify_eq/=.
    + by rewrite app_nil_r.
    + rewrite unterminated_app, Hone. simpl. eauto.
  - simplify_eq/=. by rewrite app_nil_r.
  - simplify_eq/=. by rewrite app_nil_r.
  - destruct (poll (fs w) mt (_iter_module_files w)). simplify_eq/=.
    by rewrite app_nil_r.
  - simplify_eq/=. rewrite app_nil_r. by destruct need_reload.
  - (* line 157 *)
    destruct Hone as (p & -> & Hun). simpl in Hstep.
    pose proof (track_kill_process_children w (pid p) (unterminated tr)) as Htk.
    pose proof (last_launched_kill_process_children w (pid p) tr) as Hll.
    destruct Hlast as [Hlen Hlast].
    destruct (kill_process_children w (pid p)) as [tk [[]|e|c]];
      simplify_eq/=; unfold at_most_last;
      rewrite ?Hll, unterminated_app, Htk; eauto.
  - (* line 158 *)
    destruct Hone as (p & -> & Hun). simplify_eq/=.
    rewrite unterminated_app, Hun. cbn [foldl track].
    by rewrite filter_cons_False by (by intros ?).
  - (* line 159, the call *)
    destruct (restart_with_reloader_cases w spawn) as [[e He]|(a & p & Hp)];
      [rewrite He in Hstep|rewrite Hp in Hstep]; simplify_eq/=.
    + by rewrite app_nil_r.
    + by rewrite unterminated_app, Hone.
  - (* line 159, the store *)
    simplify_eq/=. rewrite app_nil_r. eauto.
  - (* line 161 *)
    simplify_eq/=. by rewrite unterminated_app.
Qed.

Lemma final_one_child tr s : live s = false → at_most_last tr → one_child tr s.
Proof. unfold live, one_child. by destruct (at_pc s). Qed.

Lemma one_child_same tr tr' s :
  unterminated tr' = unterminated tr → last_launched tr' = last_launched tr →
  one_child tr s → one_child tr' s.
Proof. intros Hu Hl. unfold one_child, at_most_last. by rewrite Hu, Hl. Qed.

Lemma runs_one_child tr s : runs tr s → one_child tr s.
Proof.
  induction 1 as [|w spawn tr s t s' Hr IH Hstep|w sig in_try tr s t s' Hr IH Hsig].
  - done.
  - eapply step_one_child; [by apply runs_invariant|done..].
  - destruct (deliver_cases _ _ _ _ _ _ Hsig)
      as (_ & [Hfinal|(Hs & _ & p & e & _ & _ & _ & Ht)]).
    + apply final_one_child; [done|].
      pose proof (one_child_at_most_last tr s (runs_invariant _ _ Hr) IH) as Hlast.
      apply deliver_trace in Hsig as [->|(q & _ & ->)].
      * by rewrite app_nil_r.
      * apply (at_most_last_handler tr _ w q); eauto.
    + (* the handler raised inside the [try]: the loop goes on *)
      subst s' t. eapply one_child_same; [| |done].
      * by rewrite unterminated_app, track_kill_process_children.
      * apply last_launched_kill_process_children.
Qed.

Lemma runs_exited tr s c :
  runs tr s → at_pc s = Exited c →
  c = 0 ∧ ∃ tr0 p, tr = tr0 ++ [ETerminate p; EExit 0].
Proof.
  induction 1 as [|w spawn tr s t s' Hr IH Hstep|w sig in_try tr s t s' Hr IH Hsig].
  - done.
  - intros Hpc. by destruct (step_not_exited _ _ _ _ _ c Hstep).
  - unfold deliver, load_worker in Hsig.
    destruct (live s) eqn:Hlive; simpl in Hsig; [|done].
    destruct (installed sig s).
    + destruct (worker_process s) as [p|]; simpl in Hsig.
      2:{ simplify_eq/=. destruct (_ && _); [|done].
          unfold live in Hlive. intros Hpc. by rewrite Hpc in Hlive. }
      pose proof (kill_program_completely_cases w p) as Hcases.
      destruct (kill_program_completely w p) as [tk r].
      destruct (result (kill_process_children w (pid p))) as [[]|e|x] eqn:Hres;
        simplify_eq/=; try done.
      * intros [= <-]. split; [done|].
        exists (tr ++ trace (kill_process_children w (pid p))), (pid p).
        by rewrite <- app_assoc.
      * destruct (_ && _); [|done].
        unfold live in Hlive. intros Hpc. by rewrite Hpc in Hlive.
      * by destruct (kill_process_children_no_exit w (pid p) x).
    + destruct sig; by simplify_eq/=.
Qed.

Lemma exec_not_exited script s c :
  (∀ x, at_pc s ≠ Exited x) → at_pc (exec script s).2 ≠ Exited c.
Proof.
  revert s. induction script as [|[w spawn] script IH]; intros s Hs; [done|].
  simpl. destruct (step w spawn s) as [[t s']|] eqn:Hstep; [|done].
  specialize (IH s' (λ x, step_not_exited _ _ _ _ _ x Hstep)).
  by destruct (exec script s').
Qed.

End RunInvariants.

(** X12. The main flow of [watchdog] never ends the process by itself:
    the supervisor exits only through a signal handler, always with status
    0, and its last two actions are then the [terminate()] of a child and
    the exit. *)
Theorem supervisor_exits_only_by_signal :
  (∀ script c,
     Watchdog.at_pc (Watchdog.watchdog script).2 ≠ Watchdog.Exited c) ∧
  (∀ tr s c,
     Watchdog.runs tr s → Watchdog.at_pc s = Watchdog.Exited c →
     c = 0 ∧ ∃ tr0 p, tr = tr0 ++ [ETerminate p; EExit 0]).
Proof.
  split.
  - intros script c. by apply exec_not_exited.
  - intros tr s c. apply runs_exited.
Qed.

Lemma supervisor_exits_only_by_signal_witness :
  0 = 0 ∧
  ∃ tr0 p,
    (Watchdog.watchdog reload_script).1
      ++ [EKill 201 SIGTERM; ETerminate 200; EExit 0]
    = tr0 ++ [ETerminate p; EExit 0].
Proof.
  apply (proj2 supervisor_exits_only_by_signal _
           (Watchdog.goto (Watchdog.Exited 0) (Watchdog.watchdog reload_script).2)).
  - apply (Watchdog.runs_signal worker_tree_world SIGINT false _ _ _ _
             (runs_watchdog reload_script)).
    vm_compute. reflexivity.
  - reflexivity.
Defined.

(** X13. At every moment of every run, with or without signals, at most
    one child that the supervisor started has not yet been sent
    [terminate()], and it is the child started last: the old child is
    terminated before the new one is started. *)
Theorem at_most_one_unterminated_child (tr : list event) (s : Watchdog.state) :
  Watchdog.runs tr s →
  (length (unterminated tr) ≤ 1)%nat ∧
  (∀ q, q ∈ unterminated tr → Watchdog.last_launched tr = Some q) ∧
  one_child tr s.
Proof.
  intros Hruns.
  pose proof (runs_one_child tr s Hruns) as Hone.
  destruct (one_child_at_most_last tr s (runs_invariant _ _ Hruns) Hone).
  done.
Qed.

Lemma at_most_one_unterminated_child_witness :
  (length (unterminated (Watchdog.watchdog reload_script).1) ≤ 1)%nat ∧
  (∀ q, q ∈ unterminated (Watchdog.watchdog reload_script).1 →
        Watchdog.last_launched (Watchdog.watchdog reload_script).1 = Some q) ∧
  one_child (Watchdog.watchdog reload_script).1 (Watchdog.watchdog reload_script).2.
Proof.
  apply at_most_one_unterminated_child. apply runs_watchdog.
Defined.

Example reload_script_unterminated :
  unterminated (Watchdog.watchdog reload_script).1 = [200].
Proof. vm_compute. reflexivity. Qed.

(** X14. As long as the supervisor's own invocation ([sys.executable],
    [sys.argv], the spec of [__main__]) stays the same, every child, the
    first and each one started by a reload, is started with the same
    command. *)
Theorem relaunch_repeats_command
    (w0 : world) (args : list string)
    (script : list (world * Reloader.spawn_result)) (s : Watchdog.state)
    (ev : event) :
  Forall (λ ws, same_invocation ws.1 w0) script →
  Reloader._get_args_for_reloading w0 = ([], Return args) →
  ev ∈ (Watchdog.exec script s).1 →
  is_popen ev = true →
  ∃ p, ev = EPopen args p.
Proof.
  intros Hsame Hargs. revert s.
  induction Hsame as [|[w spawn] script Hw _ IH]; intros s Hev Hpopen.
  - by apply elem_of_nil in Hev.
  - simpl in Hev.
    destruct (Watchdog.step w spawn s) as [[t s']|] eqn:Hstep;
      [|by apply elem_of_nil in Hev].
    specialize (IH s').
    destruct (Watchdog.exec script s') as [t' s'']. simpl in *.
    apply elem_of_app in Hev as [Hev|Hev]; [|by apply IH].
    by eapply step_popen_args.
Qed.

Lemma relaunch_repeats_command_witness :
  ∃ p, EPopen ["/usr/bin/python3"; "/app/server.py"; "--port"; "8000"] 200
       = EPopen ["/usr/bin/python3"; "/app/server.py"; "--port"; "8000"] p.
Proof.
  apply (relaunch_repeats_command (app_world 5) _ reload_script Watchdog.init).
  - unfold reload_script, quiet. repeat constructor.
  - reflexivity.
  - vm_compute. do 3 right. left.
  - reflexivity.
Defined.

(** X15. Between the [Popen] call of line 159 and the store of its result
    the handlers still see the previous child: a signal arriving there runs
    [kill_program_completely] on the child already terminated at line 158,
    and the child just started is sent nothing and stays behind, not
    terminated. *)
Theorem signal_before_store_spares_new_child
    (tr : list event) (s : Watchdog.state) (new : Reloader.Popen) :
  Watchdog.runs tr s →
  Watchdog.at_pc s = Watchdog.AtAssign new →
  ∃ old,
    Watchdog.worker_process s = Some old ∧
    Watchdog.last_launched tr = Some (Reloader.pid new) ∧
    unterminated tr = [Reloader.pid new] ∧
    ∀ w sig in_try t s',
      Watchdog.deliver w sig in_try s = Some (t, s') →
      t = trace (Reloader.kill_program_completely w old) ∧
      Watchdog.live s' = false ∧
      (Reloader.pid new ≠ Reloader.pid old →
       (ETerminate (Reloader.pid new) ∉ t) ∧
       unterminated (tr ++ t) = [Reloader.pid new]).
Proof.
  intros Hruns Hpc.
  pose proof (runs_invariant _ _ Hruns) as Hinv.
  pose proof (runs_one_child _ _ Hruns) as Hone.
  unfold invariant in Hinv. unfold one_child in Hone. rewrite Hpc in Hinv, Hone.
  destruct Hinv as ([old Hold] & Hlast & Hterm & Hint).
  exists old. split; [done|]. split; [done|]. split; [done|].
  intros w sig in_try t s' Hsig.
  assert (Watchdog.live s' = false) as Hfinal.
  { destruct (deliver_cases _ _ _ _ _ _ Hsig)
      as (_ & [?|(_ & _ & p & e & _ & Hc & _)]); [done|].
    unfold Watchdog.catches in Hc. by rewrite Hpc in Hc. }
  assert (t = trace (Reloader.kill_program_completely w old)) as ->.
  { unfold Watchdog.deliver, Watchdog.live, Watchdog.load_worker in Hsig.
    rewrite Hpc, Hold in Hsig. simpl in Hsig.
    assert (Watchdog.installed sig s = true) as Hinst by by destruct sig.
    rewrite Hinst in Hsig.
    destruct (Reloader.kill_program_completely w old) as [tk [[]|e|c]];
      by simplify_eq/=. }
  split; [done|]. split; [done|]. intros Hne.
  rewrite unterminated_app, Hone.
  destruct (handler_trace w old) as [->| ->].
  - split; [|apply track_kill_process_children].
    intros Hin. by apply kill_process_children_events in Hin as [[n ?]|?].
  - split.
    + intros [Hin|Hin]%elem_of_app.
      * by apply kill_process_children_events in Hin as [[n ?]|?].
      * apply elem_of_cons in Hin as [[= ?]|Hin]; [done|].
        by apply list_elem_of_singleton in Hin.
    + rewrite foldl_app, track_kill_process_children. cbn [foldl track].
      by rewrite filter_cons_True.
Qed.

Lemma signal_before_store_spares_new_child_witness :
  ∃ old,
    Watchdog.worker_process (Watchdog.watchdog reload_script_before_store).2
      = Some old ∧
    Watchdog.last_launched (Watchdog.watchdog reload_script_before_store).1
      = Some 200 ∧
    unterminated (Watchdog.watchdog reload_script_before_store).1 = [200] ∧
    ∀ w sig in_try t s',
      Watchdog.deliver w sig in_try
        (Watchdog.watchdog reload_script_before_store).2
        = Some (t, s') →
      t = trace (Reloader.kill_program_completely w old) ∧
      Watchdog.live s' = false ∧
      (200 ≠ Reloader.pid old →
       (ETerminate 200 ∉ t) ∧
       unterminated ((Watchdog.watchdog reload_script_before_store).1 ++ t)
       = [200]).
Proof.
  apply (signal_before_store_spares_new_child
           (Watchdog.watchdog reload_script_before_store).1
           (Watchdog.watchdog reload_script_before_store).2
           {| Reloader.pid := 200 |}).
  - apply runs_watchdog.
  - vm_compute. reflexivity.
Defined.

Example signal_before_store :
  ∀ in_try,
    Watchdog.deliver worker_tree_world SIGTERM in_try
      (Watchdog.watchdog reload_script_before_store).2
    = Some ([ETerminate 100; EExit 0],
            Watchdog.goto (Watchdog.Exited 0)
              (Watchdog.watchdog reload_script_before_store).2).
Proof. intros []; vm_compute; reflexivity. Qed.
